(** * cvec: a macro-based growable array (src/cvec.h)

    A shallow embedding of the macros of [cvec.h] and the properties of the
    container that follow from them.

    - [size_t] fields are integers in [Z] with the wrap-around of a 64-bit
      unsigned type written out ([wrap]).
    - The backing buffer [__data] is [None] for the null pointer and
      [Some buf] for a heap block; a slot of [buf] is [None] while its contents
      are indeterminate (fresh from [realloc]) and [Some x] once written.
    - The allocator is an input: every operation that may call [realloc] takes
      the boolean outcome [ra] of that call ([false]: [realloc] returns NULL).
    - Calls of the destructor [__on_free], of [realloc] and of [free] are
      recorded, in program order, in an event log returned by each operation.
    - An operation whose C execution is undefined (a read of an indeterminate
      or out-of-bounds slot, a store through NULL, a [memcpy] between
      overlapping or out-of-bounds ranges) yields [Undef]; a loop that
      exhausts its budget of iterations yields [OutOfFuel]. *)

From Stdlib Require Import ZArith List Bool Lia.
From Stdlib Require String.
Import ListNotations.
Open Scope Z_scope.

(** ** Machine integers *)

Definition SIZE_MOD : Z := 2 ^ 64.
Definition SIZE_MAX : Z := SIZE_MOD - 1.

(** Reduction of an integer to [size_t]. *)
Definition wrap (z : Z) : Z := z mod SIZE_MOD.

Definition CVEC_EOK : Z := 0.
Definition CVEC_EOOM : Z := -1.

(** ** Outcomes and the event log *)

Section Vector.

Variable T : Type.

Inductive event : Type :=
| Destroy (x : T)                 (* __on_free(x) *)
| Realloc (bytes : Z) (ok : bool) (* realloc(__data, bytes) and whether it succeeded *)
| Free.                           (* free(__data) *)

(** A computation ends normally with a value and the events it emitted, or is
    undefined in C, or exhausts its loop budget after the events listed. *)
Inductive M (A : Type) : Type :=
| Ret (a : A) (log : list event)
| Undef
| OutOfFuel (log : list event).

Arguments Ret {A} a log.
Arguments Undef {A}.
Arguments OutOfFuel {A} log.

Definition ret {A} (a : A) : M A := Ret a [].

Definition bind {A B} (c : M A) (k : A -> M B) : M B :=
  match c with
  | Ret a l1 =>
      match k a with
      | Ret b l2 => Ret b (l1 ++ l2)
      | Undef => Undef
      | OutOfFuel l2 => OutOfFuel (l1 ++ l2)
      end
  | Undef => Undef
  | OutOfFuel l => OutOfFuel l
  end.

Definition emit (e : event) : M unit := Ret tt [e].
Definition undef {A} : M A := Undef.

Notation "x <- c ;; k" := (bind c (fun x => k))
  (at level 61, c at next level, right associativity).
Notation "c ;;; k" := (bind c (fun _ => k))
  (at level 61, right associativity).

(** ** The vector structure (macro [cvec_t]) *)

Definition slot : Type := option T.
Definition buffer : Type := list slot.

Record cvec : Type := mkvec {
  __n : Z;                  (* number of items *)
  __m : Z;                  (* number of allocated slots *)
  __t : Z;                  (* sizeof(T) *)
  __data : option buffer;   (* NULL or the heap block *)
  __on_free : bool;         (* is the destructor pointer non-null? *)
  __e : Z;                  (* CVEC_EOK or CVEC_EOOM *)
  __sentinel : T
}.

Definition set_n (v : cvec) (n : Z) : cvec :=
  mkvec n (__m v) (__t v) (__data v) (__on_free v) (__e v) (__sentinel v).
Definition set_m (v : cvec) (m : Z) : cvec :=
  mkvec (__n v) m (__t v) (__data v) (__on_free v) (__e v) (__sentinel v).
Definition set_data (v : cvec) (d : option buffer) : cvec :=
  mkvec (__n v) (__m v) (__t v) d (__on_free v) (__e v) (__sentinel v).
Definition set_e (v : cvec) (e : Z) : cvec :=
  mkvec (__n v) (__m v) (__t v) (__data v) (__on_free v) e (__sentinel v).

(** ** Memory primitives *)

Definition blen (buf : buffer) : Z := Z.of_nat (length buf).

(** [d[i]] read as a value of type [T]. *)
Definition load (d : option buffer) (i : Z) : M T :=
  match d with
  | None => undef
  | Some buf =>
      if (0 <=? i) && (i <? blen buf) then
        match nth_error buf (Z.to_nat i) with
        | Some (Some x) => ret x
        | _ => undef
        end
      else undef
  end.

Fixpoint update (buf : buffer) (i : nat) (s : slot) : buffer :=
  match buf, i with
  | [], _ => []
  | _ :: r, O => s :: r
  | a :: r, S j => a :: update r j s
  end.

(** [d[i] = x]. *)
Definition store (d : option buffer) (i : Z) (x : T) : M (option buffer) :=
  match d with
  | None => undef
  | Some buf =>
      if (0 <=? i) && (i <? blen buf) then
        ret (Some (update buf (Z.to_nat i) (Some x)))
      else undef
  end.

(** The slots [src .. src+k-1] of [buf]. *)
Definition slice (buf : buffer) (src k : Z) : buffer :=
  firstn (Z.to_nat k) (skipn (Z.to_nat src) buf).

(** [buf] with the slots from [dst] on replaced by [blk]. *)
Definition blit (buf : buffer) (dst : Z) (blk : buffer) : buffer :=
  firstn (Z.to_nat dst) buf ++ blk
    ++ skipn (Z.to_nat dst + length blk) buf.

(** [memcpy(d + dst, d + src, bytes)] inside one block whose elements have
    size [t].  The byte count is a whole number of elements in every call of
    the header unless the product wrapped; the ranges must lie inside the
    block and must not overlap (ISO C 7.24.2.1), otherwise the call is
    undefined. *)
Definition memcpy (d : option buffer) (t dst src bytes : Z)
  : M (option buffer) :=
  match d with
  | None => undef
  | Some buf =>
      let k := bytes / t in
      if (0 <? t) && (bytes mod t =? 0)
         && (0 <=? dst) && (dst + k <=? blen buf)
         && (0 <=? src) && (src + k <=? blen buf)
         && ((k =? 0) || (dst + k <=? src) || (src + k <=? dst))
      then ret (Some (blit buf dst (slice buf src k)))
      else undef
  end.

(** The block of [k] slots that keeps the old contents as far as they fit. *)
Definition resize (old : option buffer) (k : nat) : buffer :=
  let b := match old with Some b => b | None => [] end in
  firstn k b ++ repeat None (k - length b).

(** [realloc(d, bytes)]: logs the call; on success the new block holds
    [bytes / t] elements, on failure the result is NULL. *)
Definition realloc (ra : bool) (d : option buffer) (t bytes : Z)
  : M (option buffer) :=
  emit (Realloc bytes ra) ;;;
  ret (if ra then Some (resize d (Z.to_nat (bytes / t))) else None).

(** ** Growth (private macro [__cvec_maybe_grow])

    The second component of the result tells whether the macro executed its
    [break], which leaves the [do ... while (0)] of the macro that uses it. *)
Definition __cvec_maybe_grow (ra : bool) (v : cvec) : M (cvec * bool) :=
  if __n v =? __m v then
    let v1 := if negb (__m v =? 0)
              then set_m v (wrap (Z.shiftl (__m v) 1))    (* __m <<= 1 *)
              else set_m v 2 in
    let v2 := set_m v1 (wrap (__m v1 + 1)) in             (* ++__m *)
    d <- realloc ra (__data v2) (__t v2) (wrap (__t v2 * __m v2)) ;;
    let v3 := set_data v2 d in
    match d with
    | None => ret (set_e v3 CVEC_EOOM, true)              (* break *)
    | Some _ => ret (v3, false)
    end
  else ret (v, false).

(** ** Lifecycle *)

(** [cvec_init] (and the initializer [CVEC_INIT]); [sz] is [sizeof(__T)]. *)
Definition cvec_init (sz : Z) (sentinel_value : T) (on_free : bool) : cvec :=
  mkvec 0 0 sz None on_free CVEC_EOK sentinel_value.

Definition cvec_set_on_free (v : cvec) (on_free : bool) : cvec :=
  mkvec (__n v) (__m v) (__t v) (__data v) on_free (__e v) (__sentinel v).

(** [for (x = lo; ...; ++x) __on_free(d[x])], running [k] times. *)
Fixpoint destroy_from (d : option buffer) (x : Z) (k : nat) : M unit :=
  match k with
  | O => ret tt
  | S k' =>
      a <- load d x ;;
      emit (Destroy a) ;;;
      destroy_from d (x + 1) k'
  end.

(** [for (x = lo; x < hi; ++x) __on_free(d[x])]. *)
Definition destroy_range (d : option buffer) (lo hi : Z) : M unit :=
  destroy_from d lo (Z.to_nat (hi - lo)).

Definition is_null (d : option buffer) : bool :=
  match d with None => true | Some _ => false end.

Definition cvec_free (v : cvec) : M cvec :=
  (if __on_free v && negb (is_null (__data v))
   then destroy_range (__data v) 0 (__n v)
   else ret tt) ;;;
  emit Free ;;;
  ret (set_e (set_m (set_n (set_data v None) 0) 0) CVEC_EOK).

(** ** Capacity *)

Definition cvec_reserve (ra : bool) (v : cvec) (n : Z) : M cvec :=
  let n := wrap n in
  d <- realloc ra (__data v) (__t v) (wrap (__t v * n)) ;;
  let v := set_data v d in
  let v := if is_null d then set_e v CVEC_EOOM else v in
  ret (set_m v n).

Definition cvec_shrink_to_fit (ra : bool) (v : cvec) : M cvec :=
  if __m v >? __n v then
    d <- realloc ra (__data v) (__t v) (wrap (__t v * __n v)) ;;
    let v := set_data v d in
    let v := if is_null d then set_e v CVEC_EOOM else v in
    ret (set_m v (__n v))
  else ret v.

(** ** Access *)

Definition cvec_get (v : cvec) (i : Z) : M T := load (__data v) i.

(** [cvec_at]: the comparison [(__i) < (__v).__n] is made in [size_t], to
    which the index is converted (a negative index becomes a large one); the
    dereference then uses the index as it was passed. *)
Definition cvec_at (v : cvec) (i : Z) : M T :=
  if wrap i <? __n v then load (__data v) i else ret (__sentinel v).

Definition cvec_front (v : cvec) : M T :=
  if __n v >? 0 then load (__data v) 0 else ret (__sentinel v).

Definition cvec_back (v : cvec) : M T :=
  if __n v >? 0 then load (__data v) (__n v - 1) else ret (__sentinel v).

(** [cvec_end(v) - cvec_begin(v)]. *)
Definition cvec_size (v : cvec) : Z := __n v.
Definition cvec_cap (v : cvec) : Z := __m v.
Definition cvec_empty (v : cvec) : bool := __n v =? 0.
Definition cvec_error (v : cvec) : Z := __e v.
Definition cvec_had_error (v : cvec) : bool := negb (__e v =? CVEC_EOK).

(** ** Mutation *)

(** [cvec_clear].  The increment of the loop is written [++i], not [++__i]:
    it acts on a variable [i] of the code around the macro (without one the
    macro does not compile), here an unbounded integer, and the loop's own
    counter [__i] stays 0.  The loop is therefore modelled with a budget of
    iterations. *)
Fixpoint clear_loop (fuel : nat) (v : cvec) (__i i : Z) : M Z :=
  match fuel with
  | O => OutOfFuel []
  | S fuel' =>
      if __i <? __n v then
        a <- load (__data v) __i ;;
        emit (Destroy a) ;;;
        clear_loop fuel' v __i (i + 1)                    (* ++i *)
      else ret i
  end.

Definition cvec_clear (fuel : nat) (v : cvec) (i : Z) : M (cvec * Z) :=
  i' <- (if __on_free v then clear_loop fuel v 0 i else ret i) ;;
  ret (set_n v 0, i').

Definition cvec_insert (ra : bool) (v : cvec) (pos : Z) (item : T) : M cvec :=
  let p := wrap pos in
  r <- __cvec_maybe_grow ra v ;;
  let v := fst r in
  if snd r then ret v else
  d <- memcpy (__data v) (__t v) (wrap (p + 1)) p
         (wrap (__t v * wrap (__n v - p))) ;;
  let v := set_n (set_data v d) (wrap (__n v + 1)) in     (* __n++ *)
  d <- store (__data v) p item ;;
  ret (set_data v d).

Definition cvec_erase (v : cvec) (pos : Z) : M cvec :=
  if __n v >? 0 then
    let p := wrap pos in
    (if __on_free v
     then a <- load (__data v) p ;; emit (Destroy a)
     else ret tt) ;;;
    d <- memcpy (__data v) (__t v) p (wrap (p + 1))
           (wrap (__t v * wrap (__n v - wrap (p - 1)))) ;;
    ret (set_n (set_data v d) (wrap (__n v - 1)))         (* __n-- *)
  else ret v.

(** [for (__x = __p; __t < __c && __x < __n; ++__t, ++__x) ;] : the final
    value of [__t]. *)
Fixpoint count_loop (fuel : nat) (t x c n : Z) : Z :=
  match fuel with
  | O => t
  | S fuel' =>
      if (t <? c) && (x <? n)
      then count_loop fuel' (wrap (t + 1)) (wrap (x + 1)) c n
      else t
  end.

(** [cvec_erase_n].  In the branch [__p == 1] the macro expands
    [cvec_erase(__v, __p)], whose body declares [size_t __p = (__p);]: the
    inner variable is initialised with itself, so its value is indeterminate
    and every use of it (the block is entered when the vector is not empty) is
    undefined. *)
Definition cvec_erase_n (v : cvec) (pos count : Z) : M cvec :=
  let p := wrap pos in
  if p =? 1 then
    if __n v >? 0 then undef else ret v
  else if (p >? 1) && (__n v >? 0) then
    let c := wrap count in
    let t := count_loop (Z.to_nat c) 0 p c (__n v) in
    (if __on_free v
     then destroy_range (__data v) p (wrap (p + t))
     else ret tt) ;;;
    d <- memcpy (__data v) (__t v) p (wrap (p + t))
           (wrap (__t v * wrap (__n v - wrap (p - t)))) ;;
    ret (set_n (set_data v d) (wrap (__n v - t)))
  else ret v.

Definition cvec_push_front (ra : bool) (v : cvec) (item : T) : M cvec :=
  r <- __cvec_maybe_grow ra v ;;
  let v := fst r in
  if snd r then ret v else
  d <- memcpy (__data v) (__t v) 1 0 (wrap (__t v * __n v)) ;;
  let v := set_n (set_data v d) (wrap (__n v + 1)) in     (* __n++ *)
  d <- store (__data v) 0 item ;;
  ret (set_data v d).

Definition cvec_push_back (ra : bool) (v : cvec) (item : T) : M cvec :=
  r <- __cvec_maybe_grow ra v ;;
  let v := fst r in
  if snd r then ret v else
  d <- store (__data v) (__n v) item ;;
  ret (set_n (set_data v d) (wrap (__n v + 1))).          (* __n++ *)

Definition cvec_pop_front (v : cvec) : M cvec :=
  if __n v >? 0 then
    (if __on_free v
     then a <- cvec_front v ;; emit (Destroy a)
     else ret tt) ;;;
    let n := wrap (__n v - 1) in                          (* --__n *)
    d <- memcpy (__data v) (__t v) 0 1 (wrap (__t v * n)) ;;
    ret (set_n (set_data v d) n)
  else ret v.

Definition cvec_pop_back (v : cvec) : M cvec :=
  if __n v >? 0 then
    (if __on_free v
     then a <- cvec_back v ;; emit (Destroy a)
     else ret tt) ;;;
    ret (set_n v (wrap (__n v - 1)))                      (* --__n *)
  else ret v.

(** ** The operations of the interface that change the vector

    The remaining macros ([cvec_get], [cvec_at], [cvec_front], [cvec_back],
    [cvec_begin], [cvec_end], [cvec_size], [cvec_cap], [cvec_empty],
    [cvec_foreach] and the error queries) only read the structure. *)

Inductive op : Type :=
| Init (sz : Z) (sentinel_value : T) (on_free : bool)
| SetOnFree (on_free : bool)
| FreeVec
| Reserve (n : Z)
| ShrinkToFit
| Clear (i : Z)
| Insert (pos : Z) (item : T)
| Erase (pos : Z)
| EraseN (pos count : Z)
| PushFront (item : T)
| PushBack (item : T)
| PopFront
| PopBack.

(** One call; [fuel] bounds the loop of [cvec_clear], [ra] is the outcome of
    the call's [realloc], if it makes one. *)
Definition run (fuel : nat) (ra : bool) (o : op) (v : cvec) : M cvec :=
  match o with
  | Init sz s f => ret (cvec_init sz s f)
  | SetOnFree f => ret (cvec_set_on_free v f)
  | FreeVec => cvec_free v
  | Reserve n => cvec_reserve ra v n
  | ShrinkToFit => cvec_shrink_to_fit ra v
  | Clear i => r <- cvec_clear fuel v i ;; ret (fst r)
  | Insert pos item => cvec_insert ra v pos item
  | Erase pos => cvec_erase v pos
  | EraseN pos count => cvec_erase_n v pos count
  | PushFront item => cvec_push_front ra v item
  | PushBack item => cvec_push_back ra v item
  | PopFront => cvec_pop_front v
  | PopBack => cvec_pop_back v
  end.

(** Does the call reach a [realloc]? *)
Definition reallocates (o : op) (v : cvec) : bool :=
  match o with
  | Insert _ _ | PushFront _ | PushBack _ => __n v =? __m v
  | Reserve _ => true
  | ShrinkToFit => __m v >? __n v
  | _ => false
  end.

(** Did a [realloc] of the log fail? *)
Definition realloc_failed (l : list event) : bool :=
  existsb (fun e => match e with Realloc _ false => true | _ => false end) l.

(** Classes of calls. *)

(** The element-adding macros. *)
Definition adds (o : op) : bool :=
  match o with
  | Insert _ _ | PushFront _ | PushBack _ => true
  | _ => false
  end.

(** The element-removing macros. *)
Definition removes (o : op) : bool :=
  match o with
  | Clear _ | Erase _ | EraseN _ _ | PopFront | PopBack => true
  | _ => false
  end.

(** A [cvec_reserve] whose request is below the current length. *)
Definition shrinks_below (o : op) (v : cvec) : bool :=
  match o with
  | Reserve k => wrap k <? __n v
  | _ => false
  end.

(** The calls that reset the error field. *)
Definition resets (o : op) : bool :=
  match o with
  | Init _ _ _ | FreeVec => true
  | _ => false
  end.

(** Only destructor calls are logged by the destructor loops. *)
Definition only_destroys (l : list event) : Prop :=
  Forall (fun e => match e with Destroy _ => True | _ => False end) l.

(** The capacity that [__cvec_maybe_grow] computes before calling
    [realloc]. *)
Definition grown_cap (m : Z) : Z :=
  wrap ((if m =? 0 then 2 else wrap (Z.shiftl m 1)) + 1).

(** ** Abstract view *)

(** The fields are values of type [size_t]; [sizeof] is never 0. *)
Definition fields_ok (v : cvec) : Prop :=
  0 <= __n v <= SIZE_MAX /\ 0 <= __m v <= SIZE_MAX /\ 1 <= __t v <= SIZE_MAX.

(** The contents of a run of initialised slots. *)
Fixpoint values (b : buffer) : option (list T) :=
  match b with
  | [] => Some []
  | None :: _ => None
  | Some x :: r =>
      match values r with
      | Some l => Some (x :: l)
      | None => None
      end
  end.

(** The sequence of live items, when the first [__n] slots exist and are
    initialised. *)
Definition elements (v : cvec) : option (list T) :=
  match __data v with
  | None => if __n v =? 0 then Some [] else None
  | Some buf =>
      if (0 <=? __n v) && (__n v <=? blen buf)
      then values (firstn (Z.to_nat (__n v)) buf)
      else None
  end.

(** The block, if any, has as many slots as the capacity says. *)
Definition block_ok (v : cvec) : Prop :=
  match __data v with
  | Some buf => blen buf = __m v
  | None => __m v = 0
  end.

(** The target of the growth policy as the specification words it. *)
Definition grow_target (m : Z) : Z := if m =? 0 then 2 else 2 * m.

End Vector.

Arguments Ret {T A} a log.
Arguments Undef {T A}.
Arguments OutOfFuel {T A} log.
Arguments bind {T A B} c k : simpl never.
Arguments ret {T A} a.
Arguments emit {T} e.
Arguments undef {T A}.
Arguments load {T}.
Arguments store {T}.
Arguments memcpy {T}.
Arguments realloc {T}.
Arguments resize {T}.
Arguments blen {T}.
Arguments destroy_from {T}.
Arguments destroy_range {T}.
Arguments clear_loop {T}.
Arguments Destroy {T} x.
Arguments Realloc {T} bytes ok.
Arguments Free {T}.
Arguments mkvec {T}.
Arguments __n {T}.
Arguments __m {T}.
Arguments __t {T}.
Arguments __data {T}.
Arguments __on_free {T}.
Arguments __e {T}.
Arguments __sentinel {T}.
Arguments cvec_init {T}.
Arguments cvec_set_on_free {T}.
Arguments cvec_free {T}.
Arguments cvec_reserve {T}.
Arguments cvec_shrink_to_fit {T}.
Arguments cvec_get {T}.
Arguments cvec_at {T}.
Arguments cvec_front {T}.
Arguments cvec_back {T}.
Arguments cvec_size {T}.
Arguments cvec_cap {T}.
Arguments cvec_empty {T}.
Arguments cvec_error {T}.
Arguments cvec_had_error {T}.
Arguments cvec_clear {T}.
Arguments cvec_insert {T}.
Arguments cvec_erase {T}.
Arguments cvec_erase_n {T}.
Arguments cvec_push_front {T}.
Arguments cvec_push_back {T}.
Arguments cvec_pop_front {T}.
Arguments cvec_pop_back {T}.
Arguments __cvec_maybe_grow {T}.
Arguments run {T}.
Arguments reallocates {T}.
Arguments realloc_failed {T}.
Arguments fields_ok {T}.
Arguments block_ok {T}.
Arguments update {T}.
Arguments values {T}.
Arguments adds {T}.
Arguments removes {T}.
Arguments shrinks_below {T}.
Arguments resets {T}.
Arguments only_destroys {T}.
Arguments elements {T}.
Arguments Init {T}.
Arguments SetOnFree {T}.
Arguments FreeVec {T}.
Arguments Reserve {T}.
Arguments ShrinkToFit {T}.
Arguments Clear {T}.
Arguments Insert {T}.
Arguments Erase {T}.
Arguments EraseN {T}.
Arguments PushFront {T}.
Arguments PushBack {T}.
Arguments PopFront {T}.
Arguments PopBack {T}.

Notation "x <- c ;; k" := (bind c (fun x => k))
  (at level 61, c at next level, right associativity).
Notation "c ;;; k" := (bind c (fun _ => k))
  (at level 61, right associativity).

(** ** Sequences of calls and sample vectors *)

(** A sequence of calls, each with the outcome of its [realloc]. *)
Fixpoint exec {T} (fuel : nat) (calls : list (bool * op T)) (v : cvec T)
  : M T (cvec T) :=
  match calls with
  | [] => ret v
  | (ra, o) :: rest => v' <- run fuel ra o v ;; exec fuel rest v'
  end.

(** [CVEC_INIT(int, -1, NULL)], as in example1.c. *)
Definition fresh : cvec Z := cvec_init 4 (-1) false.

(** Three items in a block of three slots. *)
Definition full3 : cvec Z :=
  mkvec 3 3 4 (Some [Some 10; Some 20; Some 30]) false CVEC_EOK (-1).

(** Four items in a block of seven slots. *)
Definition roomy4 : cvec Z :=
  mkvec 4 7 4
    (Some [Some 10; Some 20; Some 30; Some 40; None; None; None])
    false CVEC_EOK (-1).

(** Five items in a block of seven slots. *)
Definition five7 : cvec Z :=
  mkvec 5 7 4
    (Some [Some 10; Some 20; Some 30; Some 40; Some 50; None; None])
    false CVEC_EOK (-1).

(** Two items and a destructor. *)
Definition owned2 : cvec Z :=
  mkvec 2 3 4 (Some [Some 10; Some 20; None]) true CVEC_EOK (-1).

(** The state of [fresh] after a failed first push. *)
Definition failed0 : cvec Z := mkvec 0 3 4 None false CVEC_EOOM (-1).

(** Scenario 1 of the specification: reserve 100 slots, push 1..100. *)
Definition scenario1 : M Z (cvec Z) :=
  exec 0 ((true, Reserve 100)
          :: map (fun k => (true, PushBack (Z.of_nat k))) (seq 1 100))
    fresh.

(** ** Traversal, error text and the callers of the examples *)

(** [cvec_foreach]: with [__e = cvec_end(v)], the loop
    [for (__i = cvec_begin(v); __i != __e; ++__i)] calls [__fun] on the item
    that [__i] points to and on [userdata].  The visitor returns nothing in C
    and acts
    on what [userdata] points to: here it maps the state [u] of that object
    to its next state.  [foreach_from d i k] runs the [k] iterations that are
    left when [__i] is [d + i]. *)
Fixpoint foreach_from {T U} (d : option (buffer T)) (i : Z) (k : nat)
    (f : T -> U -> M T U) (u : U) : M T U :=
  match k with
  | O => ret u
  | S k' =>
      a <- load d i ;;
      u' <- f a u ;;
      foreach_from d (i + 1) k' f u'
  end.

Definition cvec_foreach {T U} (v : cvec T) (f : T -> U -> M T U) (u : U)
  : M T U :=
  foreach_from (__data v) 0 (Z.to_nat (__n v)) f u.

(** The visitor applied to the items of a list, first to last. *)
Fixpoint visit_all {T U} (f : T -> U -> M T U) (els : list T) (u : U)
  : M T U :=
  match els with
  | [] => ret u
  | a :: r => u' <- f a u ;; visit_all f r u'
  end.

(** The two texts of [cvec_strerror]. *)
Module ErrorText.
Import String.
Local Open Scope string_scope.
Definition out_of_memory : string := "Out of memory".
Definition no_error : string := "No error".
End ErrorText.

Definition cvec_strerror {T} (v : cvec T) : String.string :=
  if __e v =? CVEC_EOOM then ErrorText.out_of_memory else ErrorText.no_error.

(** example1.c.  [int] has 32 bits; a line [iv[%d]=%d] of the output is
    recorded as the pair of its two numbers. *)
Definition INT_MAX : Z := 2 ^ 31 - 1.

(** [printVecItemCallback]: one call of [printf] with the counter that
    [userdata] points to, post-incremented, and the item; the state is the
    counter and the lines printed so far.  Incrementing an [int] equal to
    [INT_MAX] is undefined. *)
Definition printVecItemCallback (item : Z) (st : Z * list (Z * Z))
  : M Z (Z * list (Z * Z)) :=
  let index := fst st in
  if index <? INT_MAX
  then ret (index + 1, snd st ++ [(index, item)])
  else undef.

(** [printVec]: [cvec_foreach] over the vector with
    [printVecItemCallback] and the address of a counter that starts at 0; the
    result is the output. *)
Definition printVec (iv : cvec Z) : M Z (list (Z * Z)) :=
  st <- cvec_foreach iv printVecItemCallback (0, []) ;;
  ret (snd st).

(** The lines [iv[i]=x] for the items of a list, counted from [i]. *)
Fixpoint numbered (i : Z) (els : list Z) : list (Z * Z) :=
  match els with
  | [] => []
  | x :: r => (i, x) :: numbered (i + 1) r
  end.

(** A run of [cvec_push_back] calls, one per item. *)
Definition pushes {T} (ra : bool) (xs : list T) : list (bool * op T) :=
  map (fun x => (ra, PushBack x)) xs.

(** The container calls of [main] in example2.c for the arguments [xs]:
    [CVEC_INIT(Argument *, NULL, argumentFree)], [cvec_reserve(v, argc - 1)],
    one [cvec_push_back] per argument, [cvec_free(v)]. *)
Definition build_and_teardown {T} (xs : list T) : list (bool * op T) :=
  (true, Reserve (Z.of_nat (length xs))) :: pushes true xs
    ++ [(true, FreeVec)].

(** Three items and a destructor, in a block of three slots. *)
Definition owned3 : cvec Z :=
  mkvec 3 3 8 (Some [Some 10; Some 20; Some 30]) true CVEC_EOK 0.

(** * Properties *)

Section Properties.

Context {T : Type}.

Implicit Types (v : cvec T) (d : option (buffer T)) (l : list (event T)).

(** ** Reasoning about computations *)

Lemma bind_Ret_inv :
  forall {A B} (c : M T A) (k : A -> M T B) b l,
    bind c k = Ret b l ->
    exists a l1 l2, c = Ret a l1 /\ k a = Ret b l2 /\ l = l1 ++ l2.
Proof.
  intros A B c k b l H. unfold bind in H.
  destruct c as [a l1| |l1]; try discriminate.
  destruct (k a) as [b' l2| |l2] eqn:Hk; try discriminate.
  inversion H; subst. exists a, l1, l2. auto.
Qed.

Lemma ret_inv :
  forall {A} (a b : A) l, ret a = Ret b l -> b = a /\ l = [].
Proof. unfold ret. intros A a b l H. inversion H. auto. Qed.

Lemma load_Ret_inv :
  forall d i x l, load d i = Ret x l -> l = [].
Proof.
  unfold load, undef, ret. intros d i x l H.
  destruct d as [buf|]; try discriminate.
  destruct ((0 <=? i) && (i <? blen buf)); try discriminate.
  destruct (nth_error buf (Z.to_nat i)) as [[y|]|]; try discriminate.
  inversion H; reflexivity.
Qed.

Lemma load_cases :
  forall d i, (exists x, load d i = ret x) \/ load d i = Undef.
Proof.
  unfold load, undef. intros d i.
  destruct d as [buf|]; auto.
  destruct ((0 <=? i) && (i <? blen buf)); auto.
  destruct (nth_error buf (Z.to_nat i)) as [[y|]|]; eauto.
Qed.

Lemma store_Ret_inv :
  forall d i x d' l, store d i x = Ret d' l -> l = [].
Proof.
  unfold store, undef, ret. intros d i x d' l H.
  destruct d as [buf|]; try discriminate.
  destruct ((0 <=? i) && (i <? blen buf)); try discriminate.
  inversion H; reflexivity.
Qed.

Lemma memcpy_Ret_inv :
  forall d t dst src bytes d' l,
    memcpy d t dst src bytes = Ret d' l -> l = [].
Proof.
  unfold memcpy, undef, ret. intros d t dst src bytes d' l H.
  destruct d as [buf|]; try discriminate.
  match type of H with (if ?c then _ else _) = _ => destruct c end;
    try discriminate.
  inversion H; reflexivity.
Qed.

Lemma only_destroys_not_failed :
  forall l, only_destroys l -> realloc_failed l = false.
Proof.
  induction 1 as [|e l He _ IH]; simpl; auto.
  destruct e; simpl; try contradiction. exact IH.
Qed.

Lemma destroy_from_log :
  forall k d x u l, destroy_from d x k = Ret u l -> only_destroys l.
Proof.
  induction k as [|k IH]; cbn [destroy_from]; intros d x u l H.
  - apply ret_inv in H. destruct H as [_ ->]. constructor.
  - apply bind_Ret_inv in H. destruct H as (a & l1 & l2 & H1 & H2 & ->).
    apply load_Ret_inv in H1. subst l1.
    apply bind_Ret_inv in H2. destruct H2 as ([] & l3 & l4 & H3 & H4 & ->).
    unfold emit in H3. inversion H3; subst. simpl.
    constructor; [exact I|]. eapply IH; eauto.
Qed.

(** ** Machine arithmetic *)

Lemma SIZE_MOD_eq : SIZE_MOD = 18446744073709551616.
Proof. reflexivity. Qed.

Lemma wrap_small : forall z, 0 <= z <= SIZE_MAX -> wrap z = z.
Proof.
  intros z H. unfold wrap. apply Z.mod_small.
  unfold SIZE_MAX in H. lia.
Qed.

Lemma wrap_range : forall z, 0 <= wrap z <= SIZE_MAX.
Proof.
  intros z. unfold wrap, SIZE_MAX.
  pose proof (Z.mod_pos_bound z SIZE_MOD). rewrite SIZE_MOD_eq in *. lia.
Qed.

Lemma wrap_le : forall z, 0 <= z -> wrap z <= z.
Proof.
  intros z Hz. unfold wrap. apply Z.mod_le; [exact Hz|].
  rewrite SIZE_MOD_eq. lia.
Qed.

(** ** Growth *)

Lemma maybe_grow_unfold :
  forall ra v,
    __cvec_maybe_grow ra v =
    if __n v =? __m v then
      let m' := grown_cap (__m v) in
      let bytes := wrap (__t v * m') in
      if ra then
        Ret (mkvec (__n v) m' (__t v)
               (Some (resize (__data v) (Z.to_nat (bytes / __t v))))
               (__on_free v) (__e v) (__sentinel v), false)
            [Realloc bytes true]
      else
        Ret (mkvec (__n v) m' (__t v) None (__on_free v) CVEC_EOOM
               (__sentinel v), true)
            [Realloc bytes false]
    else Ret (v, false) [].
Proof.
  intros ra v. unfold __cvec_maybe_grow, grown_cap.
  destruct (__n v =? __m v); [|reflexivity].
  destruct (__m v =? 0); destruct ra; reflexivity.
Qed.

Lemma grown_cap_no_overflow :
  forall m, 0 <= m -> 2 * m + 1 <= SIZE_MAX ->
            grown_cap m = grow_target m + 1.
Proof.
  intros m H0 H1. unfold grown_cap, grow_target.
  rewrite Z.shiftl_mul_pow2 by lia. change (2 ^ 1) with 2.
  unfold SIZE_MAX in *. rewrite SIZE_MOD_eq in *.
  destruct (m =? 0) eqn:E.
  - apply wrap_small. unfold SIZE_MAX. rewrite SIZE_MOD_eq. lia.
  - rewrite (wrap_small (m * 2)) by (unfold SIZE_MAX; rewrite SIZE_MOD_eq; lia).
    rewrite wrap_small by (unfold SIZE_MAX; rewrite SIZE_MOD_eq; lia). lia.
Qed.

(** ** Failure of [realloc] *)

(** What every call that reaches a failing [realloc] leaves behind: the
    length is kept, the error is recorded, the storage field holds the null
    result of the call. *)
Lemma failed_realloc_state :
  forall fuel (o : op T) v,
    reallocates o v = true ->
    exists m' bytes,
      run fuel false o v =
        Ret (mkvec (__n v) m' (__t v) None (__on_free v) CVEC_EOOM
               (__sentinel v))
            [Realloc bytes false].
Proof.
  intros fuel o v H.
  destruct o; cbn [reallocates] in H; try discriminate; cbn [run].
  - (* reserve *)
    unfold cvec_reserve, realloc, bind, emit, ret. cbn. do 2 eexists; reflexivity.
  - (* shrink_to_fit *)
    unfold cvec_shrink_to_fit. rewrite H.
    unfold realloc, bind, emit, ret. cbn. do 2 eexists; reflexivity.
  - (* insert *)
    unfold cvec_insert. rewrite maybe_grow_unfold, H.
    unfold bind, ret. cbn. do 2 eexists; reflexivity.
  - (* push_front *)
    unfold cvec_push_front. rewrite maybe_grow_unfold, H.
    unfold bind, ret. cbn. do 2 eexists; reflexivity.
  - (* push_back *)
    unfold cvec_push_back. rewrite maybe_grow_unfold, H.
    unfold bind, ret. cbn. do 2 eexists; reflexivity.
Qed.

(** C1 (amended). Every mutating call that reaches [realloc] (a push or an
    insert into a full vector, [cvec_reserve], a [cvec_shrink_to_fit] with
    spare capacity) and sees it fail returns with the length it started with
    and with the error field set to [CVEC_EOOM]. *)
Theorem failed_realloc_keeps_length :
  forall fuel (o : op T) v,
    reallocates o v = true ->
    exists v' bytes,
      run fuel false o v = Ret v' [Realloc bytes false] /\
      __n v' = __n v /\ __e v' = CVEC_EOOM.
Proof.
  intros fuel o v H.
  destruct (failed_realloc_state fuel o v H) as (m' & bytes & E).
  eexists. exists bytes. split; [exact E|]. split; reflexivity.
Qed.

(** The capacity after a failed growth is the one that was attempted, and the
    old block is no longer reachable from the structure. *)
Lemma failed_growth_clobbers :
  forall v item,
    __n v = __m v ->
    exists v' bytes,
      cvec_push_back false v item = Ret v' [Realloc bytes false] /\
      __m v' = grown_cap (__m v) /\ __data v' = None.
Proof.
  intros v item H. unfold cvec_push_back.
  rewrite maybe_grow_unfold. rewrite (proj2 (Z.eqb_eq _ _) H).
  unfold bind, ret. cbn. eexists. eexists. split; [reflexivity|]. split; reflexivity.
Qed.


(** ** The element-adding macros *)

Ltac bind_inv H :=
  let a := fresh "a" in
  let l1 := fresh "l" in
  let l2 := fresh "l" in
  let H1 := fresh H "a" in
  let H2 := fresh H "b" in
  apply bind_Ret_inv in H; destruct H as (a & l1 & l2 & H1 & H2 & ->).

(** [cvec_insert], [cvec_push_front] and [cvec_push_back] start with
    [__cvec_maybe_grow]; whatever they do afterwards logs nothing, leaves
    capacity and error as the growth step left them, and adds one to the
    length unless the growth step left the macro. *)
Lemma adds_fields :
  forall fuel ra (o : op T) v v' l,
    adds o = true ->
    run fuel ra o v = Ret v' l ->
    exists g brk,
      __cvec_maybe_grow ra v = Ret (g, brk) l /\
      __m v' = __m g /\ __e v' = __e g /\
      __n v' = (if brk then __n g else wrap (__n g + 1)).
Proof.
  intros fuel ra o v v' l Ha H.
  destruct o; cbn [adds] in Ha; try discriminate; cbn [run] in H.
  - unfold cvec_insert in H. bind_inv H. destruct a as [g brk].
    exists g, brk. cbn [fst snd] in Hb. destruct brk.
    + apply ret_inv in Hb. destruct Hb as [-> ->].
      rewrite app_nil_r. auto.
    + bind_inv Hb. apply memcpy_Ret_inv in Hba. subst.
      bind_inv Hbb. apply store_Ret_inv in Hbba. subst.
      apply ret_inv in Hbbb. destruct Hbbb as [-> ->].
      rewrite app_nil_r. auto.
  - unfold cvec_push_front in H. bind_inv H. destruct a as [g brk].
    exists g, brk. cbn [fst snd] in Hb. destruct brk.
    + apply ret_inv in Hb. destruct Hb as [-> ->].
      rewrite app_nil_r. auto.
    + bind_inv Hb. apply memcpy_Ret_inv in Hba. subst.
      bind_inv Hbb. apply store_Ret_inv in Hbba. subst.
      apply ret_inv in Hbbb. destruct Hbbb as [-> ->].
      rewrite app_nil_r. auto.
  - unfold cvec_push_back in H. bind_inv H. destruct a as [g brk].
    exists g, brk. cbn [fst snd] in Hb. destruct brk.
    + apply ret_inv in Hb. destruct Hb as [-> ->].
      rewrite app_nil_r. auto.
    + bind_inv Hb. apply store_Ret_inv in Hba. subst.
      apply ret_inv in Hbb. destruct Hbb as [-> ->].
      rewrite app_nil_r. auto.
Qed.

Lemma resize_length :
  forall d k, length (@resize T d k) = k.
Proof.
  intros d k. unfold resize. rewrite length_app, length_firstn, repeat_length.
  lia.
Qed.

(** ** The element-removing macros *)

Lemma only_destroys_app :
  forall l1 l2, only_destroys l1 -> only_destroys l2 ->
                only_destroys (l1 ++ l2).
Proof. intros l1 l2 H1 H2. apply Forall_app; auto. Qed.

Lemma maybe_destroy_log :
  forall (b : bool) (c : M T T) u l,
    (forall x l', c = Ret x l' -> l' = []) ->
    (if b then a <- c ;; emit (Destroy a) else ret tt) = Ret u l ->
    only_destroys l.
Proof.
  intros b c u l Hc H. destruct b.
  - bind_inv H. apply Hc in Ha. subst. unfold emit in Hb.
    inversion Hb; subst. repeat constructor.
  - apply ret_inv in H. destruct H as [_ ->]. constructor.
Qed.

Lemma clear_loop_log :
  forall fuel v j i r l,
    clear_loop fuel v j i = Ret r l -> only_destroys l.
Proof.
  induction fuel as [|fuel IH]; cbn [clear_loop]; intros v j i r l H.
  - discriminate.
  - destruct (j <? __n v).
    + bind_inv H. apply load_Ret_inv in Ha. subst.
      bind_inv Hb. unfold emit in Hba. inversion Hba; subst.
      cbn [app]. constructor; [exact I|]. eapply IH; eauto.
    + apply ret_inv in H. destruct H as [_ ->]. constructor.
Qed.

Lemma count_loop_bounds :
  forall fuel t x c n,
    0 <= t -> 0 <= x -> n <= SIZE_MAX -> c <= SIZE_MAX ->
    t <= count_loop fuel t x c n /\
    count_loop fuel t x c n - t <= Z.max 0 (n - x).
Proof.
  induction fuel as [|fuel IH]; cbn [count_loop]; intros t x c n Ht Hx Hn Hc.
  - lia.
  - destruct ((t <? c) && (x <? n)) eqn:E; [|lia].
    apply andb_prop in E. destruct E as [E1 E2].
    apply Z.ltb_lt in E1. apply Z.ltb_lt in E2.
    rewrite (wrap_small (t + 1)) by lia.
    rewrite (wrap_small (x + 1)) by lia.
    destruct (IH (t + 1) (x + 1) c n) as [I1 I2]; try lia.
Qed.

(** A removal logs destructor calls only, keeps capacity and error, and does
    not increase the length. *)
Lemma removes_fields :
  forall fuel ra (o : op T) v v' l,
    removes o = true ->
    run fuel ra o v = Ret v' l ->
    only_destroys l /\ __m v' = __m v /\ __e v' = __e v /\
    (0 <= __n v <= SIZE_MAX -> 0 <= __n v' <= __n v).
Proof.
  intros fuel ra o v v' l Hr H.
  assert (Hsame : @only_destroys T [] /\ __m v = __m v /\ __e v = __e v /\
                  (0 <= __n v <= SIZE_MAX -> 0 <= __n v <= __n v)).
  { repeat split; try lia. constructor. }
  destruct o; cbn [removes] in Hr; try discriminate; cbn [run] in H.
  - (* clear *)
    bind_inv H. apply ret_inv in Hb. destruct Hb as [-> ->].
    rewrite app_nil_r. unfold cvec_clear in Ha. bind_inv Ha.
    apply ret_inv in Hab. destruct Hab as [-> ->]. rewrite app_nil_r.
    cbn [fst set_n __n __m __e].
    split; [|repeat split; lia].
    destruct (__on_free v).
    + eapply clear_loop_log; eauto.
    + apply ret_inv in Haa. destruct Haa as [_ ->]. constructor.
  - (* erase *)
    unfold cvec_erase in H. destruct (__n v >? 0) eqn:E.
    + apply Z.gtb_lt in E. bind_inv H. bind_inv Hb.
      apply memcpy_Ret_inv in Hba. subst.
      apply ret_inv in Hbb. destruct Hbb as [-> ->].
      rewrite !app_nil_r. cbn [set_n set_data __n __m __e].
      split; [|split; [reflexivity|split; [reflexivity|]]].
      * eapply maybe_destroy_log; [|exact Ha].
        intros; eapply load_Ret_inv; eauto.
      * intros Hn. rewrite (wrap_small (__n v - 1)) by lia. lia.
    + apply ret_inv in H. destruct H as [-> ->]. exact Hsame.
  - (* erase_n *)
    unfold cvec_erase_n in H. destruct (wrap pos =? 1).
    { destruct (__n v >? 0); [discriminate|].
      apply ret_inv in H. destruct H as [-> ->]. exact Hsame. }
    destruct ((wrap pos >? 1) && (__n v >? 0)) eqn:E.
    + apply andb_prop in E. destruct E as [E1 E2].
      apply Z.gtb_lt in E1. apply Z.gtb_lt in E2.
      bind_inv H. bind_inv Hb. apply memcpy_Ret_inv in Hba. subst.
      apply ret_inv in Hbb. destruct Hbb as [-> ->].
      rewrite !app_nil_r. cbn [set_n set_data __n __m __e].
      split; [|split; [reflexivity|split; [reflexivity|]]].
      * destruct (__on_free v).
        -- unfold destroy_range in Ha. eapply destroy_from_log; eauto.
        -- apply ret_inv in Ha. destruct Ha as [_ ->]. constructor.
      * intros Hn. pose proof (wrap_range count) as Hc.
        destruct (count_loop_bounds (Z.to_nat (wrap count)) 0 (wrap pos)
                    (wrap count) (__n v)) as [B1 B2]; try lia.
        rewrite wrap_small by lia. lia.
    + apply ret_inv in H. destruct H as [-> ->]. exact Hsame.
  - (* pop_front *)
    unfold cvec_pop_front in H. destruct (__n v >? 0) eqn:E.
    + apply Z.gtb_lt in E. bind_inv H. bind_inv Hb.
      apply memcpy_Ret_inv in Hba. subst.
      apply ret_inv in Hbb. destruct Hbb as [-> ->].
      rewrite !app_nil_r. cbn [set_n set_data __n __m __e].
      split; [|split; [reflexivity|split; [reflexivity|]]].
      * eapply maybe_destroy_log; [|exact Ha].
        unfold cvec_front. intros x l' Hx.
        destruct (__n v >? 0); [eapply load_Ret_inv; eauto|].
        apply ret_inv in Hx. tauto.
      * intros Hn. rewrite (wrap_small (__n v - 1)) by lia. lia.
    + apply ret_inv in H. destruct H as [-> ->]. exact Hsame.
  - (* pop_back *)
    unfold cvec_pop_back in H. destruct (__n v >? 0) eqn:E.
    + apply Z.gtb_lt in E. bind_inv H.
      apply ret_inv in Hb. destruct Hb as [-> ->].
      rewrite !app_nil_r. cbn [set_n __n __m __e].
      split; [|split; [reflexivity|split; [reflexivity|]]].
      * eapply maybe_destroy_log; [|exact Ha].
        unfold cvec_back. intros x l' Hx.
        destruct (__n v >? 0); [eapply load_Ret_inv; eauto|].
        apply ret_inv in Hx. tauto.
      * intros Hn. rewrite (wrap_small (__n v - 1)) by lia. lia.
    + apply ret_inv in H. destruct H as [-> ->]. exact Hsame.
Qed.

(** ** Capacity and teardown *)

Lemma reserve_unfold :
  forall ra v n,
    cvec_reserve ra v n =
    Ret (mkvec (__n v) (wrap n) (__t v)
           (if ra
            then Some (resize (__data v)
                         (Z.to_nat (wrap (__t v * wrap n) / __t v)))
            else None)
           (__on_free v) (if ra then __e v else CVEC_EOOM) (__sentinel v))
        [Realloc (wrap (__t v * wrap n)) ra].
Proof. intros ra v n. destruct ra; reflexivity. Qed.

Lemma shrink_to_fit_unfold :
  forall ra v,
    cvec_shrink_to_fit ra v =
    if __m v >? __n v then
      Ret (mkvec (__n v) (__n v) (__t v)
             (if ra
              then Some (resize (__data v)
                           (Z.to_nat (wrap (__t v * __n v) / __t v)))
              else None)
             (__on_free v) (if ra then __e v else CVEC_EOOM) (__sentinel v))
          [Realloc (wrap (__t v * __n v)) ra]
    else Ret v [].
Proof.
  intros ra v. unfold cvec_shrink_to_fit.
  destruct (__m v >? __n v); [|reflexivity]. destruct ra; reflexivity.
Qed.

Lemma free_fields :
  forall v v' l,
    cvec_free v = Ret v' l ->
    __n v' = 0 /\ __m v' = 0 /\ __e v' = CVEC_EOK /\ __data v' = None /\
    exists l', l = l' ++ [Free] /\ only_destroys l'.
Proof.
  intros v v' l H. unfold cvec_free in H.
  bind_inv H. bind_inv Hb. unfold emit in Hba. inversion Hba; subst.
  apply ret_inv in Hbb. destruct Hbb as [-> ->]. cbn.
  repeat split. exists l0. split; [reflexivity|].
  destruct (__on_free v && negb (is_null T (__data v))).
  - unfold destroy_range in Ha. eapply destroy_from_log; eauto.
  - apply ret_inv in Ha. destruct Ha as [_ ->]. constructor.
Qed.

(** ** The invariant length <= capacity *)

(** C6 (amended). length <= capacity holds after initialisation and is kept
    by every call of the interface that returns, except a [cvec_reserve]
    that asks for fewer slots than the vector has items; the capacity is
    taken small enough for its double plus one to be a [size_t]. *)
Theorem length_le_capacity_preserved :
  forall fuel ra (o : op T) v v' l,
    0 <= __n v -> __n v <= __m v -> 2 * __m v + 1 <= SIZE_MAX ->
    shrinks_below o v = false ->
    run fuel ra o v = Ret v' l ->
    0 <= __n v' /\ __n v' <= __m v'.
Proof.
  intros fuel ra o v v' l H0 Hinv Hno Hs H.
  assert (Hmax : SIZE_MAX = 18446744073709551615) by reflexivity.
  destruct (adds o) eqn:Ea.
  { destruct (adds_fields fuel ra o v v' l Ea H)
      as (g & brk & E & Em & _ & En).
    rewrite maybe_grow_unfold in E.
    destruct (__n v =? __m v) eqn:Efull.
    - apply Z.eqb_eq in Efull. cbv zeta in E.
      rewrite grown_cap_no_overflow in E by lia.
      assert (Ht : 2 <= grow_target (__m v) /\ 2 * __m v <= grow_target (__m v)).
      { unfold grow_target. destruct (__m v =? 0) eqn:Ez; [apply Z.eqb_eq in Ez|]; lia. }
      destruct ra; inversion E; subst g brk l; cbn [__n __m] in *;
        rewrite ?wrap_small in En by lia; lia.
    - apply Z.eqb_neq in Efull. inversion E; subst g brk l.
      rewrite wrap_small in En by lia. lia. }
  destruct (removes o) eqn:Er.
  { destruct (removes_fields fuel ra o v v' l Er H)
      as (_ & Em & _ & En). lia. }
  destruct o; cbn [adds removes] in Ea, Er; try discriminate; cbn [run] in H.
  - apply ret_inv in H. destruct H as [-> _]. cbn. lia.
  - apply ret_inv in H. destruct H as [-> _]. cbn. lia.
  - apply free_fields in H. lia.
  - rewrite reserve_unfold in H. inversion H; subst. cbn in *.
    apply Z.ltb_ge in Hs. lia.
  - rewrite shrink_to_fit_unfold in H.
    destruct (__m v >? __n v); inversion H; subst; cbn; lia.
Qed.

(** ** The error field *)

Lemma realloc_failed_app :
  forall l1 l2,
    realloc_failed (l1 ++ l2) = realloc_failed l1 || realloc_failed l2.
Proof. intros. apply existsb_app. Qed.

(** C7 (amended). The error field is [CVEC_EOK] after [cvec_init] and after
    [cvec_free]; any other call sets it to [CVEC_EOOM] when its [realloc]
    fails and leaves it as it was otherwise, so a successful reallocation
    does not clear an earlier failure. *)
Theorem error_is_sticky :
  forall fuel ra (o : op T) v v' l,
    run fuel ra o v = Ret v' l ->
    __e v' = if resets o then CVEC_EOK
             else if realloc_failed l then CVEC_EOOM
             else __e v.
Proof.
  intros fuel ra o v v' l H.
  destruct (adds o) eqn:Ea.
  { destruct (adds_fields fuel ra o v v' l Ea H)
      as (g & brk & E & _ & Ee & _).
    assert (resets o = false) as -> by (destruct o; try discriminate; reflexivity).
    rewrite maybe_grow_unfold in E.
    destruct (__n v =? __m v); [destruct ra|];
      inversion E; subst g brk l; cbn; exact Ee. }
  destruct (removes o) eqn:Er.
  { destruct (removes_fields fuel ra o v v' l Er H)
      as (Hl & _ & Ee & _).
    assert (resets o = false) as -> by (destruct o; try discriminate; reflexivity).
    rewrite (only_destroys_not_failed l Hl). exact Ee. }
  destruct o; cbn [adds removes] in Ea, Er; try discriminate;
    cbn [run resets] in *.
  - apply ret_inv in H. destruct H as [-> _]. reflexivity.
  - apply ret_inv in H. destruct H as [-> ->]. reflexivity.
  - apply free_fields in H. tauto.
  - rewrite reserve_unfold in H. inversion H; subst.
    destruct ra; reflexivity.
  - rewrite shrink_to_fit_unfold in H.
    destruct (__m v >? __n v); inversion H; subst; [destruct ra|]; reflexivity.
Qed.


(** ** Sentinel-guarded access *)

Lemma values_length :
  forall (b : buffer T) els, values b = Some els -> length els = length b.
Proof.
  induction b as [|s b IH]; cbn [values]; intros els H.
  - inversion H. reflexivity.
  - destruct s as [x|]; [|discriminate].
    destruct (values b) as [r|]; [|discriminate].
    inversion H. cbn. f_equal. apply IH. reflexivity.
Qed.

Lemma values_nth :
  forall (b : buffer T) els k,
    values b = Some els -> (k < length b)%nat ->
    exists x, nth_error b k = Some (Some x) /\ nth_error els k = Some x.
Proof.
  induction b as [|s b IH]; cbn [values]; intros els k H Hk.
  - cbn in Hk. lia.
  - destruct s as [x|]; [|discriminate].
    destruct (values b) as [r|] eqn:E; [|discriminate].
    inversion H; subst els. destruct k as [|k].
    + exists x. split; reflexivity.
    + cbn in Hk. destruct (IH r k eq_refl) as (y & Hy1 & Hy2); [lia|].
      exists y. split; assumption.
Qed.

(** Inside the live range a load returns the item of the abstract sequence. *)
Lemma elements_load :
  forall v els i,
    elements v = Some els -> 0 <= i < __n v ->
    exists x, nth_error els (Z.to_nat i) = Some x /\
              load (__data v) i = ret x.
Proof.
  intros v els i H Hi. unfold elements in H.
  destruct (__data v) as [buf|].
  - destruct ((0 <=? __n v) && (__n v <=? blen buf)) eqn:E; [|discriminate].
    apply andb_prop in E. destruct E as [_ E]. apply Z.leb_le in E.
    unfold blen in E.
    destruct (values_nth _ els (Z.to_nat i) H) as (x & Hx1 & Hx2).
    { rewrite length_firstn. lia. }
    exists x. split; [exact Hx2|].
    rewrite nth_error_firstn in Hx1.
    destruct (Z.to_nat i <? Z.to_nat (__n v))%nat; [|discriminate].
    unfold load, blen.
    replace ((0 <=? i) && (i <? Z.of_nat (length buf))) with true
      by (symmetry; apply andb_true_intro; split;
          [apply Z.leb_le|apply Z.ltb_lt]; lia).
    rewrite Hx1. reflexivity.
  - destruct (__n v =? 0) eqn:E; [|discriminate].
    apply Z.eqb_eq in E. lia.
Qed.

Lemma elements_length :
  forall v els, elements v = Some els -> Z.of_nat (length els) = __n v.
Proof.
  intros v els H. unfold elements in H.
  destruct (__data v) as [buf|].
  - destruct ((0 <=? __n v) && (__n v <=? blen buf)) eqn:E; [|discriminate].
    apply andb_prop in E. destruct E as [E0 E]. apply Z.leb_le in E, E0.
    unfold blen in E. apply values_length in H.
    rewrite H, length_firstn. lia.
  - destruct (__n v =? 0) eqn:E; [|discriminate].
    apply Z.eqb_eq in E. inversion H. cbn. lia.
Qed.

(** C9. For every vector and every index: [cvec_at] returns what [cvec_get]
    returns when the index, compared as a [size_t], is below the length, and
    the sentinel otherwise (so at every index from the length up to
    [SIZE_MAX], and at every negative index of a type of up to 64 bits
    unless the length exceeds 2^63); [cvec_front] and [cvec_back] return what
    [cvec_get] returns at the first and at the last index when the length is
    not 0, and the sentinel when it is.  On a vector whose live items are the
    sequence [els], the values returned below the length are the items of
    [els] at those indices, the first and the last one for [cvec_front] and
    [cvec_back]. *)
Theorem sentinel_guarded_access :
  forall v i,
    (wrap i < __n v -> cvec_at v i = cvec_get v i) /\
    (__n v <= wrap i -> cvec_at v i = ret (__sentinel v)) /\
    (0 <= i <= SIZE_MAX -> __n v <= i -> cvec_at v i = ret (__sentinel v)) /\
    (- 2 ^ 63 <= i < 0 -> __n v <= 2 ^ 63 ->
     cvec_at v i = ret (__sentinel v)) /\
    (0 < __n v ->
     cvec_front v = cvec_get v 0 /\ cvec_back v = cvec_get v (__n v - 1)) /\
    (__n v <= 0 ->
     cvec_front v = ret (__sentinel v) /\ cvec_back v = ret (__sentinel v)) /\
    (forall els,
       elements v = Some els ->
       Z.of_nat (length els) = __n v /\
       (0 <= i < __n v ->
        exists x, nth_error els (Z.to_nat i) = Some x /\
                  cvec_at v i = ret x /\ cvec_get v i = ret x) /\
       (0 < __n v ->
        exists a b,
          nth_error els 0 = Some a /\ cvec_front v = ret a /\
          nth_error els (length els - 1) = Some b /\ cvec_back v = ret b)).
Proof.
  intros v i.
  assert (Hlow : wrap i < __n v -> cvec_at v i = cvec_get v i).
  { intros Hlt. unfold cvec_at, cvec_get.
    rewrite (proj2 (Z.ltb_lt _ _) Hlt). reflexivity. }
  assert (Hhigh : __n v <= wrap i -> cvec_at v i = ret (__sentinel v)).
  { intros Hge. unfold cvec_at.
    rewrite (proj2 (Z.ltb_ge _ _) Hge). reflexivity. }
  split; [exact Hlow|]. split; [exact Hhigh|].
  split; [|split; [|split; [|split]]].
  - intros Hi Hge. apply Hhigh. rewrite wrap_small by exact Hi. exact Hge.
  - intros Hi Hn. apply Hhigh.
    assert (Hw : wrap i = i + SIZE_MOD).
    { unfold wrap. rewrite <- (Z.mod_add i 1 SIZE_MOD)
        by (rewrite SIZE_MOD_eq; lia).
      apply Z.mod_small. rewrite SIZE_MOD_eq. lia. }
    rewrite Hw, SIZE_MOD_eq. lia.
  - intros Hpos. unfold cvec_front, cvec_back, cvec_get.
    rewrite (proj2 (Z.gtb_lt _ _) Hpos). split; reflexivity.
  - intros Hz. unfold cvec_front, cvec_back.
    destruct (__n v >? 0) eqn:E; [apply Z.gtb_lt in E; lia|].
    split; reflexivity.
  - intros els H.
    pose proof (elements_length v els H) as Hlen.
    split; [exact Hlen|]. split.
    + intros Hi.
      destruct (elements_load v els i H Hi) as (x & Hx & Hl).
      exists x. split; [exact Hx|].
      assert (Hw : wrap i < __n v).
      { pose proof (wrap_le i ltac:(lia)). lia. }
      rewrite (Hlow Hw). unfold cvec_get. auto.
    + intros Hpos.
      destruct (elements_load v els 0 H) as (a & Ha & Hla); [lia|].
      destruct (elements_load v els (__n v - 1) H) as (b & Hb & Hlb); [lia|].
      exists a, b. unfold cvec_front, cvec_back.
      rewrite (proj2 (Z.gtb_lt _ _) Hpos).
      replace (length els - 1)%nat with (Z.to_nat (__n v - 1)) by lia.
      auto.
Qed.

(** ** Insertion at the end *)

(** A [memcpy] of no bytes between two positions of a block changes
    nothing; it is defined exactly when both pointers stay inside the block
    (one past its end included). *)
Lemma memcpy_nothing :
  forall (buf : buffer T) t dst src,
    1 <= t ->
    memcpy (Some buf) t dst src 0 =
    if (0 <=? dst) && (dst <=? blen buf) && (0 <=? src) && (src <=? blen buf)
    then ret (Some buf) else undef.
Proof.
  intros buf t dst src Ht. unfold memcpy.
  rewrite Z.mod_0_l by lia. rewrite Z.div_0_l by lia.
  rewrite (proj2 (Z.ltb_lt 0 t)) by lia. rewrite !Z.add_0_r.
  cbn [Z.eqb andb orb].
  destruct (0 <=? dst); cbn [andb]; [|reflexivity].
  destruct (dst <=? blen buf); cbn [andb]; [|reflexivity].
  destruct (0 <=? src); cbn [andb]; [|reflexivity].
  destruct (src <=? blen buf); cbn [andb]; [|reflexivity].
  unfold blit, slice. cbn [firstn length app]. rewrite Nat.add_0_r.
  rewrite firstn_skipn. reflexivity.
Qed.

Lemma insert_tail_at_end :
  forall g item,
    1 <= __t g -> 0 <= __n g ->
    (d <- memcpy (__data g) (__t g) (wrap (__n g + 1)) (__n g)
            (wrap (__t g * wrap (__n g - __n g))) ;;
     let v := set_n T (set_data T g d) (wrap (__n g + 1)) in
     d <- store (__data v) (__n g) item ;;
     ret (set_data T v d))
    = (d <- store (__data g) (__n g) item ;;
       ret (set_n T (set_data T g d) (wrap (__n g + 1)))).
Proof.
  intros g item Ht Hn.
  rewrite Z.sub_diag. change (wrap 0) with 0.
  rewrite Z.mul_0_r. change (wrap 0) with 0.
  destruct (__data g) as [buf|] eqn:Ed; [|reflexivity].
  rewrite memcpy_nothing by lia.
  assert (Hw : 0 <= wrap (__n g + 1) <= __n g + 1).
  { split; [apply wrap_range|apply wrap_le; lia]. }
  destruct (__n g <? blen buf) eqn:Elt.
  - apply Z.ltb_lt in Elt.
    replace ((0 <=? wrap (__n g + 1)) && (wrap (__n g + 1) <=? blen buf)
             && (0 <=? __n g) && (__n g <=? blen buf)) with true.
    2:{ symmetry. repeat (apply andb_true_intro; split); apply Z.leb_le; lia. }
    unfold bind, ret. cbn [set_data set_n __data __n].
    destruct (store (Some buf) (__n g) item); reflexivity.
  - apply Z.ltb_ge in Elt.
    assert (Hs : store (Some buf) (__n g) item = Undef).
    { unfold store. rewrite (proj2 (Z.ltb_ge _ _) Elt).
      rewrite andb_false_r. reflexivity. }
    destruct ((0 <=? wrap (__n g + 1)) && (wrap (__n g + 1) <=? blen buf)
              && (0 <=? __n g) && (__n g <=? blen buf));
      unfold bind, ret, undef; cbn [set_data set_n __data __n];
      rewrite Hs; reflexivity.
Qed.

(** C10. Inserting at position [cvec_size] is the same computation as
    [cvec_push_back]: the same growth step, the same log of events and the
    same resulting structure (or both are undefined). *)
Theorem insert_at_size_is_push_back :
  forall ra v item,
    fields_ok v ->
    cvec_insert ra v (cvec_size v) item = cvec_push_back ra v item.
Proof.
  intros ra v item (Hn & Hm & Ht).
  unfold cvec_insert, cvec_push_back, cvec_size.
  rewrite (wrap_small (__n v)) by exact Hn.
  assert (Hg : exists g brk l,
             __cvec_maybe_grow ra v = Ret (g, brk) l /\
             __n g = __n v /\ __t g = __t v).
  { rewrite maybe_grow_unfold.
    destruct (__n v =? __m v); [destruct ra|]; cbv zeta;
      do 3 eexists; (split; [reflexivity|split; reflexivity]). }
  destruct Hg as (g & brk & l & -> & En & Et).
  unfold bind at 1. unfold bind at 3. cbn [fst snd].
  destruct brk; [reflexivity|].
  rewrite <- En. rewrite insert_tail_at_end by lia. reflexivity.
Qed.

(** ** Appending *)

Lemma update_length :
  forall (b : buffer T) k s, length (update b k s) = length b.
Proof.
  induction b as [|a b IH]; intros [|k] s; cbn; auto.
Qed.

Lemma firstn_update_snoc :
  forall (b : buffer T) k s,
    (k < length b)%nat ->
    firstn (S k) (update b k s) = firstn k b ++ [s].
Proof.
  induction b as [|a b IH]; intros k s Hk; cbn in Hk; [lia|].
  destruct k as [|k].
  - reflexivity.
  - cbn [update]. rewrite !firstn_cons. rewrite IH by lia. reflexivity.
Qed.

Lemma values_snoc :
  forall (b : buffer T) els x,
    values b = Some els -> values (b ++ [Some x]) = Some (els ++ [x]).
Proof.
  induction b as [|a b IH]; cbn [values app]; intros els x H.
  - inversion H. reflexivity.
  - destruct a as [y|]; [|discriminate].
    destruct (values b) as [r|] eqn:E; [|discriminate].
    inversion H; subst els. rewrite (IH r x eq_refl). reflexivity.
Qed.

Lemma firstn_resize :
  forall (b : buffer T) k n,
    (n <= length b)%nat -> (n <= k)%nat ->
    firstn n (resize (Some b) k) = firstn n b.
Proof.
  intros b k n Hb Hk. unfold resize.
  rewrite firstn_app, length_firstn.
  replace (n - Nat.min k (length b))%nat with 0%nat by lia.
  rewrite firstn_firstn. replace (Nat.min n k) with n by lia.
  cbn [firstn]. apply app_nil_r.
Qed.

(** The live items as a prefix of the block ([] standing for no block). *)
Lemma elements_prefix :
  forall v els,
    elements v = Some els ->
    let b := match __data v with Some b => b | None => [] end in
    0 <= __n v <= blen b /\ values (firstn (Z.to_nat (__n v)) b) = Some els.
Proof.
  intros v els H. unfold elements in H. cbv zeta.
  destruct (__data v) as [buf|].
  - destruct ((0 <=? __n v) && (__n v <=? blen buf)) eqn:E; [|discriminate].
    apply andb_prop in E. destruct E as [E0 E1].
    apply Z.leb_le in E0, E1. auto.
  - destruct (__n v =? 0) eqn:E; [|discriminate].
    apply Z.eqb_eq in E. rewrite E. inversion H. cbn. split; [lia|reflexivity].
Qed.

(** A store just past the live items of a block extends them by one. *)
Lemma store_appends :
  forall (b : buffer T) n item els,
    0 <= n < blen b ->
    values (firstn (Z.to_nat n) b) = Some els ->
    store (Some b) n item = ret (Some (update b (Z.to_nat n) (Some item))) /\
    values (firstn (Z.to_nat (n + 1)) (update b (Z.to_nat n) (Some item)))
      = Some (els ++ [item]).
Proof.
  intros b n item els Hn Hv. unfold blen in Hn. split.
  - unfold store, blen.
    rewrite (proj2 (Z.leb_le 0 n)) by lia.
    rewrite (proj2 (Z.ltb_lt n _)) by lia. reflexivity.
  - replace (Z.to_nat (n + 1)) with (S (Z.to_nat n)) by lia.
    rewrite firstn_update_snoc by lia. apply values_snoc. exact Hv.
Qed.

(** X1. [cvec_push_back] on a well-formed vector (with a successful
    [realloc] when it is full) returns, and appends the item to the live
    sequence; the result is well-formed again. *)
Lemma push_back_appends :
  forall ra v item els,
    fields_ok v -> block_ok v -> __n v <= __m v ->
    elements v = Some els ->
    (__n v = __m v ->
     ra = true /\ __t v * (grow_target (__m v) + 1) <= SIZE_MAX) ->
    exists v' l,
      cvec_push_back ra v item = Ret v' l /\
      elements v' = Some (els ++ [item]) /\
      __n v' = __n v + 1 /\ __n v' <= __m v' /\ block_ok v'.
Proof.
  intros ra v item els (Hn & Hm & Ht) Hblk Hle Hels Hfull.
  assert (Hmax : SIZE_MAX = 18446744073709551615) by reflexivity.
  destruct (elements_prefix v els Hels) as [Hnb Hv].
  unfold cvec_push_back. rewrite maybe_grow_unfold.
  destruct (__n v =? __m v) eqn:E.
  - apply Z.eqb_eq in E. destruct (Hfull E) as [-> Hno]. cbv zeta.
    assert (Hg : 2 * __m v <= grow_target (__m v) /\ 2 <= grow_target (__m v)).
    { unfold grow_target.
      destruct (__m v =? 0) eqn:Ez; [apply Z.eqb_eq in Ez|]; lia. }
    rewrite grown_cap_no_overflow by nia.
    rewrite (wrap_small (__t v * _)) by nia.
    rewrite Z.mul_comm, Z.div_mul by lia.
    set (m' := grow_target (__m v) + 1).
    set (rb := resize (__data v) (Z.to_nat m')).
    assert (Hrl : blen rb = m').
    { unfold blen, rb. rewrite resize_length. lia. }
    assert (Hrv : values (firstn (Z.to_nat (__n v)) rb) = Some els).
    { unfold rb. destruct (__data v) as [b|].
      - rewrite firstn_resize; [exact Hv| unfold blen in Hnb; lia | lia].
      - cbn in Hnb. replace (__n v) with 0 in * by lia. exact Hv. }
    destruct (store_appends rb (__n v) item els ltac:(lia) Hrv) as [Hs Hv'].
    unfold bind at 1. cbn [fst snd __data __n].
    rewrite Hs. unfold bind, ret. cbn [app].
    eexists. eexists. split; [reflexivity|].
    assert (Hm' : __n v + 1 <= m' /\ m' <= SIZE_MAX) by (unfold m'; nia).
    unfold set_n, set_data. cbn [__n __m __data].
    rewrite wrap_small by lia.
    split; [|split; [reflexivity|split; [lia|]]].
    + unfold elements. cbn [__data __n]. unfold blen.
      rewrite update_length. fold (blen rb). rewrite Hrl.
      rewrite (proj2 (Z.leb_le 0 _)) by lia.
      rewrite (proj2 (Z.leb_le _ m')) by lia. exact Hv'.
    + unfold block_ok. cbn [__data __m]. unfold blen.
      rewrite update_length. exact Hrl.
  - apply Z.eqb_neq in E. unfold block_ok in Hblk.
    destruct (__data v) as [b|] eqn:Ed; [|lia].
    destruct (store_appends b (__n v) item els ltac:(lia) Hv) as [Hs Hv'].
    unfold bind at 1. cbn [fst snd]. rewrite Ed, Hs. unfold bind, ret.
    eexists. eexists. split; [reflexivity|].
    unfold set_n, set_data. cbn [__n __m __data].
    rewrite wrap_small by lia.
    split; [|split; [reflexivity|split; [lia|]]].
    + unfold elements. cbn [__data __n]. unfold blen.
      rewrite update_length. fold (blen b).
      rewrite (proj2 (Z.leb_le 0 _)) by lia.
      rewrite (proj2 (Z.leb_le _ (blen b))) by lia. exact Hv'.
    + unfold block_ok. cbn [__data __m]. unfold blen.
      rewrite update_length. exact Hblk.
Qed.


(** ** Defects of the shifting macros *)

(** The loop of [cvec_clear] never advances: with a destructor set and a
    first item to read, every budget is exhausted, each iteration calling the
    destructor on the first item again. *)
Lemma clear_loop_stuck :
  forall fuel v i x,
    0 < __n v -> load (__data v) 0 = ret x ->
    clear_loop fuel v 0 i = OutOfFuel (repeat (Destroy x) fuel).
Proof.
  induction fuel as [|fuel IH]; intros v i x Hn Hx; cbn [clear_loop repeat].
  - reflexivity.
  - rewrite (proj2 (Z.ltb_lt _ _) Hn). rewrite Hx.
    unfold bind, ret, emit. rewrite (IH v (i + 1) x Hn Hx). reflexivity.
Qed.

(** Without a destructor [cvec_clear] has no loop to run. *)
Lemma clear_without_destructor :
  forall fuel v i,
    __on_free v = false -> cvec_clear fuel v i = ret (set_n T v 0, i).
Proof. intros fuel v i H. unfold cvec_clear. rewrite H. reflexivity. Qed.

(** [cvec_erase_n] at position 0 takes neither branch. *)
Lemma erase_n_at_zero_is_noop :
  forall v count, cvec_erase_n v 0 count = ret v.
Proof. reflexivity. Qed.

(** X21. [cvec_erase] at any position below the length asks [memcpy] for
    [__n - __p + 1] items, one slot apart: at least two, so the ranges
    overlap and the call is undefined. *)
Lemma erase_in_range_undefined :
  forall v pos,
    fields_ok v -> __t v * (__n v + 1) <= SIZE_MAX ->
    0 <= pos < __n v ->
    cvec_erase v pos = Undef.
Proof.
  intros v pos (Hn & Hm & Ht) Hb Hp.
  assert (Hmax : SIZE_MAX = 18446744073709551615) by reflexivity.
  unfold cvec_erase. rewrite (proj2 (Z.gtb_lt _ _)) by lia.
  rewrite (wrap_small pos) by lia. rewrite (wrap_small (pos + 1)) by lia.
  assert (Hk : wrap (__n v - wrap (pos - 1)) = __n v - pos + 1).
  { destruct (Z.eq_dec pos 0) as [->|Hne].
    - change (wrap (0 - 1)) with SIZE_MAX. unfold wrap.
      rewrite <- (Z.mod_add _ 1) by (rewrite SIZE_MOD_eq; lia).
      rewrite Z.mod_small; rewrite ?SIZE_MOD_eq; lia.
    - rewrite (wrap_small (pos - 1)) by lia.
      rewrite wrap_small by lia. lia. }
  rewrite Hk. rewrite wrap_small by nia.
  assert (Hc : forall d, memcpy d (__t v) pos (pos + 1)
                           (__t v * (__n v - pos + 1)) = Undef).
  { intros [buf|]; [|reflexivity]. unfold memcpy.
    rewrite Z.mul_comm, Z.div_mul by lia.
    replace ((__n v - pos + 1 =? 0)
             || (pos + (__n v - pos + 1) <=? pos + 1)
             || (pos + 1 + (__n v - pos + 1) <=? pos)) with false.
    - rewrite andb_false_r. reflexivity.
    - symmetry. repeat (apply orb_false_intro);
        [apply Z.eqb_neq|apply Z.leb_gt|apply Z.leb_gt]; lia. }
  unfold bind. rewrite Hc.
  destruct (__on_free v); [|reflexivity].
  destruct (load_cases (__data v) pos) as [[a ->]| ->]; reflexivity.
Qed.

(** X20. On a vector with a free slot [cvec_insert] asks [memcpy] to move
    [__n - __p] items one slot up: with two or more the ranges overlap and
    the call is undefined. *)
Lemma insert_overlap_undefined :
  forall v pos item,
    fields_ok v -> __t v * __n v <= SIZE_MAX ->
    __n v < __m v ->
    0 <= pos -> pos + 2 <= __n v ->
    forall ra, cvec_insert ra v pos item = Undef.
Proof.
  intros v pos item (Hn & Hm & Ht) Hb Hroom Hp0 Hp ra.
  assert (Hmax : SIZE_MAX = 18446744073709551615) by reflexivity.
  unfold cvec_insert. rewrite maybe_grow_unfold.
  rewrite (proj2 (Z.eqb_neq _ _)) by lia.
  unfold bind at 1. cbn [fst snd].
  rewrite (wrap_small pos) by lia. rewrite (wrap_small (pos + 1)) by lia.
  rewrite (wrap_small (__n v - pos)) by lia.
  rewrite wrap_small by nia.
  assert (Hc : forall d, memcpy d (__t v) (pos + 1) pos
                           (__t v * (__n v - pos)) = Undef).
  { intros [buf|]; [|reflexivity]. unfold memcpy.
    rewrite Z.mul_comm, Z.div_mul by lia.
    replace ((__n v - pos =? 0)
             || (pos + 1 + (__n v - pos) <=? pos)
             || (pos + (__n v - pos) <=? pos + 1)) with false.
    - rewrite andb_false_r. reflexivity.
    - symmetry. repeat (apply orb_false_intro);
        [apply Z.eqb_neq|apply Z.leb_gt|apply Z.leb_gt]; lia. }
  unfold bind. rewrite Hc. reflexivity.
Qed.


End Properties.

(** * Executions on vectors of integers *)

Lemma full3_reachable :
  exec 0 [(true, PushBack 10); (true, PushBack 20); (true, PushBack 30)]
    fresh
  = Ret full3 [Realloc 12 true].
Proof. reflexivity. Qed.

Lemma full3_reachable_by_reserve :
  exec 0 [(true, Reserve 3); (true, PushBack 10); (true, PushBack 20);
          (true, PushBack 30)] fresh
  = Ret full3 [Realloc 12 true].
Proof. reflexivity. Qed.

Lemma five7_reachable :
  exec 0 [(true, PushBack 50)] roomy4 = Ret five7 [].
Proof. reflexivity. Qed.

Lemma scenario1_observations :
  exists v,
    scenario1 = Ret v [Realloc 400 true] /\
    cvec_size v = 100 /\ cvec_cap v = 100 /\ cvec_had_error v = false /\
    cvec_front v = ret 1 /\ cvec_back v = ret 100 /\
    cvec_get v 49 = ret 50 /\ cvec_at v 200 = ret (-1).
Proof.
  eexists. split; [vm_compute; reflexivity|].
  repeat split; vm_compute; reflexivity.
Qed.

Lemma roomy4_reachable :
  exec 0 [(true, PushBack 40)] full3 = Ret roomy4 [Realloc 28 true].
Proof. reflexivity. Qed.

Lemma owned2_reachable :
  exec 0 [(true, PushBack 10); (true, PushBack 20)]
    (cvec_init 4 (-1) true)
  = Ret owned2 [Realloc 12 true].
Proof. reflexivity. Qed.

Lemma failed0_reachable :
  exec 0 [(false, PushBack 10)] fresh = Ret failed0 [Realloc 12 false].
Proof. reflexivity. Qed.

(** ** C1 *)

(** C1, as stated, fails: a push into the full vector [full3] whose
    [realloc] fails returns with capacity 7 instead of 3 and with a null
    storage field instead of the block. *)
Lemma failed_push_back_changes_capacity_and_storage :
  exists v' l,
    run 0 false (PushBack 40) full3 = Ret v' l /\
    realloc_failed l = true /\
    __m v' <> __m full3 /\ __data v' <> __data full3.
Proof.
  exists (mkvec 3 7 4 None false CVEC_EOOM (-1)), [Realloc 28 false].
  split; [reflexivity|]. split; [reflexivity|]. split; discriminate.
Qed.

Lemma failed_realloc_keeps_length_witness :
  reallocates (PushBack 40) full3 = true /\
  exists v' bytes,
    run 0 false (PushBack 40) full3 = Ret v' [Realloc bytes false] /\
    __n v' = __n full3 /\ __e v' = CVEC_EOOM.
Proof.
  split; [reflexivity|].
  apply (failed_realloc_keeps_length 0 (PushBack 40) full3). reflexivity.
Defined.

(** ** C2 *)

(** C2 fails in the code: erasing two items from position 0 of [full3]
    erases nothing, the guard of the macro asks for a position above 1. *)
Theorem erase_n_at_front_does_nothing :
  cvec_erase_n full3 0 2 = Ret full3 [].
Proof. reflexivity. Qed.

(** At position 1 the macro ignores the count and hands over to
    [cvec_erase] with an indeterminate position. *)
Lemma erase_n_at_one_undefined :
  cvec_erase_n full3 1 0 = Undef /\ cvec_erase_n roomy4 1 2 = Undef.
Proof. split; reflexivity. Qed.

(** Above position 1 the count given to [memcpy] is too large by twice the
    number of erased items: the request of scenario 4 of the specification
    asks for six items starting at slot 5 of a block of seven. *)
Lemma erase_n_tail_undefined :
  cvec_erase_n five7 2 1000 = Undef.
Proof. reflexivity. Qed.

(** ** C3 *)

(** C3 fails in the code: on [owned2] the loop of [cvec_clear] calls the
    destructor on the first item once per iteration and uses up every
    budget. *)
Theorem clear_never_finishes :
  forall fuel i,
    cvec_clear fuel owned2 i = OutOfFuel (repeat (Destroy 10) fuel).
Proof.
  intros fuel i. unfold cvec_clear. cbn [__on_free owned2].
  rewrite (clear_loop_stuck fuel owned2 i 10); reflexivity.
Qed.

(** ** C4 *)

(** C4 fails in the code: erasing the first item of [full3] asks [memcpy]
    for four items starting at slot 1 of a block of three. *)
Theorem erase_front_of_full_undefined :
  cvec_erase full3 0 = Undef.
Proof. reflexivity. Qed.

(** The sibling [cvec_pop_front] asks for [__n - 1] items. *)
Lemma pop_front_of_two :
  cvec_pop_front owned2
  = Ret (mkvec 1 3 4 (Some [Some 20; Some 20; None]) true CVEC_EOK (-1))
        [Destroy 10].
Proof. reflexivity. Qed.

(** ** C5 *)

(** C5 fails in the code: inserting in front of the four items of [roomy4]
    copies them between overlapping ranges. *)
Theorem insert_front_overlap_undefined :
  cvec_insert true roomy4 0 9 = Undef.
Proof. reflexivity. Qed.

(** With at most one item to move the ranges are disjoint and the insertion
    is the one described. *)
Lemma insert_before_last :
  cvec_insert true roomy4 3 9
  = Ret (mkvec 5 7 4
           (Some [Some 10; Some 20; Some 30; Some 9; Some 40; None; None])
           false CVEC_EOK (-1)) [].
Proof. reflexivity. Qed.

(** ** C6 *)

(** C6, as stated, fails: [cvec_reserve] with a request below the length
    leaves three items in a capacity of one. *)
Lemma reserve_below_length_breaks_invariant :
  __n full3 <= __m full3 /\
  exists v' l,
    run 0 true (Reserve 1) full3 = Ret v' l /\ __m v' < __n v'.
Proof.
  split; [discriminate|].
  eexists. eexists. split; [reflexivity|]. reflexivity.
Qed.

Lemma length_le_capacity_preserved_witness :
  exists v' l,
    run 0 true (PushBack 40) full3 = Ret v' l /\
    0 <= __n v' /\ __n v' <= __m v'.
Proof.
  exists roomy4, [Realloc 28 true]. split; [reflexivity|].
  apply (length_le_capacity_preserved 0 true (PushBack 40) full3 roomy4
           [Realloc 28 true]).
  - discriminate.
  - discriminate.
  - discriminate.
  - reflexivity.
  - reflexivity.
Defined.

(** ** C7 *)

(** C7, as stated, fails: after the failed push that leads to [failed0], a
    successful [cvec_reserve] leaves the error field at [CVEC_EOOM]. *)
Lemma error_survives_successful_realloc :
  exists v' bytes,
    cvec_reserve true failed0 4 = Ret v' [Realloc bytes true] /\
    cvec_had_error v' = true.
Proof. eexists. eexists. split; reflexivity. Qed.

Lemma error_is_sticky_witness :
  exists v' l,
    run 0 true (Reserve 4) failed0 = Ret v' l /\ __e v' = CVEC_EOOM.
Proof.
  eexists. eexists. split; [reflexivity|].
  exact (error_is_sticky 0 true (Reserve 4) failed0 _ _ eq_refl).
Defined.

(** ** C9 *)

Lemma sentinel_guarded_access_witness :
  cvec_at roomy4 1 = ret 20 /\ cvec_get roomy4 1 = ret 20 /\
  cvec_at roomy4 200 = ret (-1) /\ cvec_at roomy4 (-1) = ret (-1) /\
  cvec_front roomy4 = ret 10 /\ cvec_back roomy4 = ret 40 /\
  cvec_front fresh = ret (-1) /\ cvec_back fresh = ret (-1).
Proof.
  pose proof (sentinel_guarded_access roomy4 1) as H1.
  destruct H1 as (_ & _ & _ & _ & _ & _ & E).
  destruct (E [10; 20; 30; 40] eq_refl) as (_ & A & C).
  assert (P1 : 0 <= 1 < __n roomy4) by (split; [discriminate|reflexivity]).
  assert (P2 : 0 < __n roomy4) by reflexivity.
  destruct (A P1) as (x & Hx & A1 & A2).
  destruct (C P2) as (a & b & Ha & C1 & Hb & C2).
  inversion Hx; subst x. inversion Ha; subst a. inversion Hb; subst b.
  pose proof (sentinel_guarded_access roomy4 200) as H200.
  destruct H200 as (_ & _ & B & _).
  assert (P3 : 0 <= 200 <= SIZE_MAX) by (split; discriminate).
  assert (P4 : __n roomy4 <= 200) by discriminate.
  assert (B' := B P3 P4).
  pose proof (sentinel_guarded_access roomy4 (-1)) as Hneg.
  destruct Hneg as (_ & _ & _ & N & _).
  assert (P5 : - 2 ^ 63 <= -1 < 0) by (split; [discriminate|reflexivity]).
  assert (P6 : __n roomy4 <= 2 ^ 63) by discriminate.
  assert (N' := N P5 P6).
  pose proof (sentinel_guarded_access fresh 0) as H0.
  destruct H0 as (_ & _ & _ & _ & _ & D & _).
  assert (P7 : __n fresh <= 0) by discriminate.
  destruct (D P7) as (D1 & D2).
  exact (conj A1 (conj A2 (conj B' (conj N' (conj C1 (conj C2
           (conj D1 D2))))))).
Defined.

(** ** C10 *)

Lemma insert_at_size_is_push_back_witness :
  cvec_insert true full3 (cvec_size full3) 40 = cvec_push_back true full3 40
  /\ cvec_push_back true full3 40 = Ret roomy4 [Realloc 28 true].
Proof.
  split; [|reflexivity].
  apply (insert_at_size_is_push_back true full3 40).
  repeat split; discriminate.
Defined.

(** * Further properties of the macros *)

Section MoreProperties.

Context {T : Type}.

Implicit Types (v : cvec T) (d : option (buffer T)) (l : list (event T)).

Ltac unbind H :=
  let a := fresh "a" in
  let l1 := fresh "l" in
  let l2 := fresh "l" in
  let H1 := fresh H "a" in
  let H2 := fresh H "b" in
  apply bind_Ret_inv in H; destruct H as (a & l1 & l2 & H1 & H2 & ->).

Lemma SIZE_MAX_eq : SIZE_MAX = 18446744073709551615.
Proof. reflexivity. Qed.

Lemma bind_ret_l :
  forall {A B} (a : A) (k : A -> M T B), bind (ret a) k = k a.
Proof. intros A B a k. unfold bind, ret. destruct (k a); reflexivity. Qed.

Lemma bind_ext :
  forall {A B} (c : M T A) (k1 k2 : A -> M T B),
    (forall a l, c = Ret a l -> k1 a = k2 a) ->
    bind c k1 = bind c k2.
Proof.
  intros A B c k1 k2 H. unfold bind.
  destruct c as [a l| |l]; try reflexivity. rewrite (H a l eq_refl).
  reflexivity.
Qed.

(** ** Appending within the capacity *)

(** The live items survive a [realloc] to at least as many slots. *)
Lemma elements_resize :
  forall v els k,
    elements v = Some els -> __n v <= k ->
    values (firstn (Z.to_nat (__n v)) (resize (__data v) (Z.to_nat k)))
      = Some els.
Proof.
  intros v els k Hels Hk.
  destruct (elements_prefix v els Hels) as [Hnb Hv].
  destruct (__data v) as [b|].
  - rewrite firstn_resize; [exact Hv| unfold blen in Hnb; lia | lia].
  - cbn in Hnb. replace (__n v) with 0 in * by lia. exact Hv.
Qed.

(** The state after a [cvec_push_back] that finds a free slot. *)
Lemma push_back_room :
  forall ra v item els,
    fields_ok v -> block_ok v -> __n v < __m v ->
    elements v = Some els ->
    exists b',
      cvec_push_back ra v item
      = Ret (mkvec (__n v + 1) (__m v) (__t v) (Some b') (__on_free v)
               (__e v) (__sentinel v)) [] /\
      blen b' = __m v /\
      values (firstn (Z.to_nat (__n v + 1)) b') = Some (els ++ [item]).
Proof.
  intros ra v item els (Hn & Hm & Ht) Hblk Hlt Hels.
  pose proof SIZE_MAX_eq as Hmax.
  destruct (elements_prefix v els Hels) as [Hnb Hv].
  unfold cvec_push_back. rewrite maybe_grow_unfold.
  rewrite (proj2 (Z.eqb_neq _ _)) by lia.
  unfold block_ok in Hblk.
  destruct (__data v) as [b|] eqn:Ed; [|lia].
  destruct (store_appends b (__n v) item els ltac:(lia) Hv) as [Hs Hv'].
  unfold bind at 1. cbn [fst snd]. rewrite Ed, Hs. unfold bind, ret.
  unfold set_n, set_data. cbn [__n __m __t __data __on_free __e __sentinel app].
  rewrite wrap_small by lia.
  eexists. split; [reflexivity|]. split; [|exact Hv'].
  unfold blen. rewrite update_length. exact Hblk.
Qed.

Lemma elements_of_block :
  forall n m t (b : buffer T) f e s els,
    0 <= n <= blen b ->
    values (firstn (Z.to_nat n) b) = Some els ->
    elements (mkvec n m t (Some b) f e s) = Some els.
Proof.
  intros n m t b f e s els Hn Hv. unfold elements. cbn [__data __n].
  rewrite (proj2 (Z.leb_le 0 n)) by lia.
  rewrite (proj2 (Z.leb_le n _)) by lia. exact Hv.
Qed.

(** The state after a run of [cvec_push_back] calls that fits in the spare
    capacity. *)
Lemma exec_pushes_state :
  forall (xs : list T) fuel ra v els,
    fields_ok v -> block_ok v ->
    elements v = Some els ->
    __n v + Z.of_nat (length xs) <= __m v ->
    exists v',
      exec fuel (pushes ra xs) v = Ret v' [] /\
      elements v' = Some (els ++ xs) /\
      __n v' = __n v + Z.of_nat (length xs) /\
      __m v' = __m v /\ __t v' = __t v /\ __on_free v' = __on_free v /\
      __e v' = __e v /\ __sentinel v' = __sentinel v /\
      block_ok v' /\ fields_ok v'.
Proof.
  induction xs as [|x xs IH]; intros fuel ra v els Hf Hblk Hels Hfit.
  - exists v. cbn [pushes map exec length]. rewrite app_nil_r.
    repeat split; try assumption; try lia; apply Hf.
  - cbn [length] in Hfit. rewrite Nat2Z.inj_succ in Hfit.
    destruct (push_back_room ra v x els Hf Hblk ltac:(lia) Hels)
      as (b' & Hp & Hb' & Hv').
    set (v1 := mkvec (__n v + 1) (__m v) (__t v) (Some b') (__on_free v)
                 (__e v) (__sentinel v)) in *.
    assert (Hf1 : fields_ok v1).
    { destruct Hf as (Hn & Hm & Ht). unfold fields_ok, v1.
      cbn [__n __m __t]. lia. }
    assert (Hels1 : elements v1 = Some (els ++ [x])).
    { apply elements_of_block; [|exact Hv'].
      destruct Hf as (Hn & _). lia. }
    destruct (IH fuel ra v1 (els ++ [x]) Hf1 Hb' Hels1) as (v' & He & R).
    { cbn [v1 __n __m]. lia. }
    exists v'. split.
    + cbn [pushes map exec run]. rewrite Hp.
      fold (pushes ra xs). unfold bind. rewrite He. reflexivity.
    + rewrite <- app_assoc in R. cbn [length]. rewrite Nat2Z.inj_succ.
      cbn [v1 __n __m __t __on_free __e __sentinel] in R.
      destruct R as (R1 & R2 & R3 & R4 & R5 & R6 & R7 & R8 & R9).
      repeat split; try assumption; try lia; apply R9.
Qed.

(** X2. A run of [cvec_push_back] calls that fits in the spare capacity of a
    well-formed vector returns without calling [realloc] (whatever the
    allocator would answer), appends the items in order and leaves capacity,
    element size, destructor, error and sentinel as they were. *)
Theorem push_backs_within_capacity :
  forall (xs : list T) fuel ra v els,
    fields_ok v -> block_ok v ->
    elements v = Some els ->
    __n v + Z.of_nat (length xs) <= __m v ->
    exists v',
      exec fuel (pushes ra xs) v = Ret v' [] /\
      elements v' = Some (els ++ xs) /\
      __n v' = __n v + Z.of_nat (length xs) /\
      __m v' = __m v /\ __t v' = __t v /\ __on_free v' = __on_free v /\
      __e v' = __e v /\ __sentinel v' = __sentinel v.
Proof.
  intros xs fuel ra v els Hf Hblk Hels Hfit.
  destruct (exec_pushes_state xs fuel ra v els Hf Hblk Hels Hfit)
    as (v' & H1 & H2 & H3 & H4 & H5 & H6 & H7 & H8 & _).
  exists v'. repeat split; assumption.
Qed.

(** ** Reserving and shrinking *)

(** X3. A successful [cvec_reserve] for at least the current length keeps
    the live items, the length and the error field, and leaves a block of
    exactly the requested number of slots. *)
Theorem reserve_keeps_items :
  forall v els k,
    fields_ok v -> elements v = Some els ->
    __n v <= k -> __t v * k <= SIZE_MAX ->
    exists v',
      cvec_reserve true v k = Ret v' [Realloc (__t v * k) true] /\
      elements v' = Some els /\
      __n v' = __n v /\ __m v' = k /\ __e v' = __e v /\ block_ok v'.
Proof.
  intros v els k (Hn & Hm & Ht) Hels Hk Hb.
  pose proof SIZE_MAX_eq as Hmax.
  assert (Hk' : 0 <= k <= SIZE_MAX) by nia.
  rewrite reserve_unfold. rewrite (wrap_small k) by exact Hk'.
  rewrite wrap_small by nia. rewrite Z.mul_comm, Z.div_mul by lia.
  rewrite (Z.mul_comm k). eexists. split; [reflexivity|].
  split; [|split; [reflexivity|split; [reflexivity|split; [reflexivity|]]]].
  - apply elements_of_block.
    + unfold blen. rewrite resize_length. lia.
    + apply elements_resize; assumption.
  - unfold block_ok. cbn [__data __m]. unfold blen.
    rewrite resize_length. lia.
Qed.

(** X4. A successful [cvec_shrink_to_fit] keeps the live items and makes the
    capacity equal to the length: with spare capacity by one [realloc] to
    exactly that many slots, and without spare capacity by doing nothing. *)
Theorem shrink_to_fit_keeps_items :
  forall v els,
    fields_ok v -> elements v = Some els ->
    __n v <= __m v -> __t v * __n v <= SIZE_MAX ->
    exists v' l,
      cvec_shrink_to_fit true v = Ret v' l /\
      elements v' = Some els /\
      __n v' = __n v /\ __m v' = __n v /\ __e v' = __e v /\
      (__n v < __m v ->
       l = [Realloc (__t v * __n v) true] /\ block_ok v') /\
      (__n v = __m v -> l = [] /\ v' = v).
Proof.
  intros v els (Hn & Hm & Ht) Hels Hle Hb.
  pose proof SIZE_MAX_eq as Hmax.
  rewrite shrink_to_fit_unfold.
  destruct (__m v >? __n v) eqn:E.
  - apply Z.gtb_lt in E.
    rewrite wrap_small by nia. rewrite Z.mul_comm, Z.div_mul by lia.
    rewrite (Z.mul_comm (__n v)). eexists. eexists. split; [reflexivity|].
    split; [|split; [reflexivity|split; [reflexivity|split; [reflexivity|]]]].
    + apply elements_of_block.
      * unfold blen. rewrite resize_length. lia.
      * apply elements_resize; [assumption|lia].
    + split; [|lia]. intros _. split; [reflexivity|].
      unfold block_ok. cbn [__data __m]. unfold blen.
      rewrite resize_length. lia.
  - assert (__m v = __n v) by (rewrite Z.gtb_ltb in E; apply Z.ltb_ge in E; lia).
    exists v, []. split; [reflexivity|].
    repeat split; try assumption; try lia.
Qed.

(** ** Teardown *)

Lemma destroy_from_loads :
  forall (els : list T) d x,
    (forall j a, nth_error els j = Some a ->
                 load d (x + Z.of_nat j) = ret a) ->
    destroy_from d x (length els) = Ret tt (map Destroy els).
Proof.
  induction els as [|a els IH]; intros d x H; cbn [length destroy_from map].
  - reflexivity.
  - pose proof (H 0%nat a eq_refl) as H0. cbn in H0.
    rewrite Z.add_0_r in H0. rewrite H0, bind_ret_l.
    rewrite (IH d (x + 1)).
    + reflexivity.
    + intros j b Hj. replace (x + 1 + Z.of_nat j) with (x + Z.of_nat (S j))
        by lia. apply H. exact Hj.
Qed.

Lemma elements_loads :
  forall v els j a,
    elements v = Some els -> nth_error els j = Some a ->
    load (__data v) (0 + Z.of_nat j) = ret a.
Proof.
  intros v els j a Hels Hj.
  pose proof (elements_length v els Hels) as Hlen.
  assert (Hlt : (j < length els)%nat)
    by (apply nth_error_Some; rewrite Hj; discriminate).
  destruct (elements_load v els (Z.of_nat j) Hels) as (x & Hx & Hl); [lia|].
  rewrite Nat2Z.id in Hx. rewrite Hx in Hj. inversion Hj; subst.
  exact Hl.
Qed.

(** The outcome of [cvec_free] on a vector with live items [els]. *)
Lemma free_state :
  forall v els,
    elements v = Some els ->
    cvec_free v
    = Ret (cvec_init (__t v) (__sentinel v) (__on_free v))
          ((if __on_free v then map Destroy els else []) ++ [Free]).
Proof.
  intros v els Hels.
  pose proof (elements_length v els Hels) as Hlen.
  unfold cvec_free.
  destruct (__on_free v) eqn:Ef; cbn [andb].
  - destruct (__data v) as [b|] eqn:Ed; cbn [is_null negb].
    + unfold destroy_range. rewrite Z.sub_0_r.
      replace (Z.to_nat (__n v)) with (length els) by lia.
      rewrite (destroy_from_loads els (Some b) 0).
      * unfold bind, emit, ret, cvec_init, set_e, set_m, set_n, set_data.
        cbn [__n __m __t __data __on_free __e __sentinel app].
        rewrite Ef. reflexivity.
      * intros j a Hj. rewrite <- Ed. eapply elements_loads; eauto.
    + assert (els = []) as ->.
      { unfold elements in Hels. rewrite Ed in Hels.
        destruct (__n v =? 0); inversion Hels; reflexivity. }
      unfold bind, emit, ret, cvec_init, set_e, set_m, set_n, set_data.
      cbn [__n __m __t __data __on_free __e __sentinel app map].
      rewrite Ef. reflexivity.
  - unfold bind, emit, ret, cvec_init, set_e, set_m, set_n, set_data.
    cbn [__n __m __t __data __on_free __e __sentinel app].
    rewrite Ef. reflexivity.
Qed.

(** X5. [cvec_free] on a vector with live items [els] returns; with a
    destructor it calls it once on every item, first to last, before the one
    [free]; and it leaves the structure as [cvec_init] would with the same
    element size, sentinel and destructor. *)
Theorem free_destroys_in_order :
  forall v els,
    elements v = Some els ->
    exists v',
      cvec_free v
        = Ret v' ((if __on_free v then map Destroy els else []) ++ [Free]) /\
      v' = cvec_init (__t v) (__sentinel v) (__on_free v) /\
      elements v' = Some [] /\ cvec_size v' = 0 /\ cvec_cap v' = 0 /\
      cvec_had_error v' = false.
Proof.
  intros v els Hels. eexists. split; [apply free_state; exact Hels|].
  repeat split.
Qed.

(** ** Removing at the end *)

Lemma values_firstn :
  forall (b : buffer T) els k,
    values b = Some els -> values (firstn k b) = Some (firstn k els).
Proof.
  induction b as [|s b IH]; intros els k H; cbn [values] in H.
  - inversion H. destruct k; reflexivity.
  - destruct s as [x|]; [|discriminate].
    destruct (values b) as [r|] eqn:E; [|discriminate].
    inversion H; subst els. destruct k as [|k]; [reflexivity|].
    cbn [firstn values]. rewrite (IH r k eq_refl). reflexivity.
Qed.

(** The state after [cvec_pop_back] on a vector that is not empty. *)
Lemma pop_back_state :
  forall v els,
    fields_ok v -> elements v = Some els -> 0 < __n v ->
    exists x,
      nth_error els (length els - 1) = Some x /\
      cvec_pop_back v
      = Ret (set_n T v (__n v - 1))
            (if __on_free v then [Destroy x] else []) /\
      elements (set_n T v (__n v - 1)) = Some (removelast els).
Proof.
  intros v els (Hn & Hm & Ht) Hels Hpos.
  pose proof SIZE_MAX_eq as Hmax.
  pose proof (elements_length v els Hels) as Hlen.
  destruct (elements_load v els (__n v - 1) Hels) as (x & Hx & Hl); [lia|].
  replace (Z.to_nat (__n v - 1)) with (length els - 1)%nat in Hx by lia.
  exists x. split; [exact Hx|]. split.
  - unfold cvec_pop_back. rewrite (proj2 (Z.gtb_lt _ _) Hpos).
    rewrite wrap_small by lia.
    destruct (__on_free v).
    + unfold cvec_back. rewrite (proj2 (Z.gtb_lt _ _) Hpos). rewrite Hl.
      reflexivity.
    + reflexivity.
  - destruct (elements_prefix v els Hels) as [Hnb Hv].
    unfold elements, set_n. cbn [__data __n].
    destruct (__data v) as [b|] eqn:Ed.
    + rewrite (proj2 (Z.leb_le 0 _)) by lia.
      rewrite (proj2 (Z.leb_le _ (blen b))) by lia. cbn [andb].
      apply (values_firstn _ _ (Z.to_nat (__n v - 1))) in Hv.
      rewrite firstn_firstn in Hv.
      replace (Nat.min (Z.to_nat (__n v - 1)) (Z.to_nat (__n v)))
        with (Z.to_nat (__n v - 1)) in Hv by lia.
      rewrite Hv. rewrite removelast_firstn_len. do 2 f_equal. lia.
    + cbn in Hnb. lia.
Qed.

(** X6. [cvec_pop_back] on a vector that is not empty removes the last
    item and nothing else: the destructor, if set, is called once, on that
    item; the length drops by one; capacity and block are untouched. *)
Theorem pop_back_removes_last :
  forall v els,
    fields_ok v -> elements v = Some els -> 0 < __n v ->
    exists x v',
      nth_error els (length els - 1) = Some x /\
      cvec_pop_back v = Ret v' (if __on_free v then [Destroy x] else []) /\
      elements v' = Some (removelast els) /\
      __n v' = __n v - 1 /\ __m v' = __m v /\ __data v' = __data v.
Proof.
  intros v els Hf Hels Hpos.
  destruct (pop_back_state v els Hf Hels Hpos) as (x & Hx & Hp & He).
  exists x, (set_n T v (__n v - 1)).
  repeat split; assumption.
Qed.

(** The state after [cvec_push_back] on a well-formed vector. *)
Lemma push_back_state :
  forall ra v item els,
    fields_ok v -> block_ok v -> __n v <= __m v ->
    elements v = Some els ->
    (__n v = __m v ->
     ra = true /\ __t v * (grow_target (__m v) + 1) <= SIZE_MAX) ->
    exists b' m' l,
      cvec_push_back ra v item
      = Ret (mkvec (__n v + 1) m' (__t v) (Some b') (__on_free v) (__e v)
               (__sentinel v)) l /\
      blen b' = m' /\ __n v + 1 <= m' <= SIZE_MAX /\
      values (firstn (Z.to_nat (__n v + 1)) b') = Some (els ++ [item]).
Proof.
  intros ra v item els Hf Hblk Hle Hels Hfull.
  pose proof SIZE_MAX_eq as Hmax.
  destruct (Z.eq_dec (__n v) (__m v)) as [E|E].
  - destruct Hf as (Hn & Hm & Ht). destruct (Hfull E) as [-> Hno].
    assert (Hg : 2 * __m v <= grow_target (__m v) /\ 2 <= grow_target (__m v)).
    { unfold grow_target.
      destruct (__m v =? 0) eqn:Ez; [apply Z.eqb_eq in Ez|]; lia. }
    unfold cvec_push_back. rewrite maybe_grow_unfold.
    rewrite (proj2 (Z.eqb_eq _ _) E). cbv zeta.
    rewrite grown_cap_no_overflow by nia.
    rewrite (wrap_small (__t v * _)) by nia.
    rewrite Z.mul_comm, Z.div_mul by lia.
    set (m' := grow_target (__m v) + 1).
    set (rb := resize (__data v) (Z.to_nat m')).
    assert (Hrl : blen rb = m').
    { unfold blen, rb. rewrite resize_length. lia. }
    assert (Hm' : __n v + 1 <= m' /\ m' <= SIZE_MAX) by (unfold m'; nia).
    assert (Hrv : values (firstn (Z.to_nat (__n v)) rb) = Some els).
    { unfold rb. apply elements_resize; [assumption|lia]. }
    destruct (store_appends rb (__n v) item els ltac:(lia) Hrv) as [Hs Hv'].
    unfold bind at 1. cbn [fst snd __data __n].
    rewrite Hs. unfold bind, ret.
    unfold set_n, set_data. cbn [__n __m __t __data __on_free __e __sentinel].
    rewrite wrap_small by lia.
    eexists. exists m'. eexists. split; [reflexivity|].
    split; [|split; [lia|exact Hv']].
    unfold blen. rewrite update_length. exact Hrl.
  - destruct (push_back_room ra v item els Hf Hblk ltac:(lia) Hels)
      as (b' & Hp & Hb' & Hv').
    destruct Hf as (Hn & Hm & Ht).
    exists b', (__m v), []. repeat split; try assumption; lia.
Qed.


(** X8. After a [cvec_push_back] on a well-formed vector the pushed item is
    what [cvec_back] and [cvec_at] at the old length return, the size is one
    more, and [cvec_at] below the old length returns what it did before. *)
Theorem push_back_then_access :
  forall ra v item els,
    fields_ok v -> block_ok v -> __n v <= __m v ->
    elements v = Some els ->
    (__n v = __m v ->
     ra = true /\ __t v * (grow_target (__m v) + 1) <= SIZE_MAX) ->
    exists v' l,
      cvec_push_back ra v item = Ret v' l /\
      cvec_size v' = cvec_size v + 1 /\
      cvec_back v' = ret item /\
      cvec_at v' (cvec_size v) = ret item /\
      (forall i, 0 <= i < cvec_size v -> cvec_at v' i = cvec_at v i).
Proof.
  intros ra v item els Hf Hblk Hle Hels Hfull.
  destruct (push_back_state ra v item els Hf Hblk Hle Hels Hfull)
    as (b' & m' & l & Hp & Hb & Hm' & Hv).
  destruct Hf as (Hn & Hm & Ht).
  pose proof (elements_length v els Hels) as Hlen.
  set (v1 := mkvec (__n v + 1) m' (__t v) (Some b') (__on_free v) (__e v)
               (__sentinel v)) in *.
  assert (Hels1 : elements v1 = Some (els ++ [item]))
    by (apply elements_of_block; [lia|exact Hv]).
  assert (Hlast : load (__data v1) (__n v) = ret item).
  { destruct (elements_load v1 _ (__n v) Hels1) as (x & Hx & Hl).
    - unfold v1. cbn [__n]. lia.
    - rewrite nth_error_app2 in Hx by lia.
      replace (Z.to_nat (__n v) - length els)%nat with 0%nat in Hx by lia.
      inversion Hx; subst x. exact Hl. }
  exists v1, l. split; [exact Hp|]. unfold cvec_size.
  split; [reflexivity|]. split; [|split].
  - unfold cvec_back. replace (__n v1) with (__n v + 1) by reflexivity.
    rewrite (proj2 (Z.gtb_lt _ _)) by lia.
    replace (__n v + 1 - 1) with (__n v) by lia. exact Hlast.
  - unfold cvec_at. replace (__n v1) with (__n v + 1) by reflexivity.
    rewrite (wrap_small (__n v)) by lia.
    rewrite (proj2 (Z.ltb_lt _ _)) by lia. exact Hlast.
  - intros i Hi. unfold cvec_at.
    replace (__n v1) with (__n v + 1) by reflexivity.
    rewrite (wrap_small i) by lia.
    rewrite (proj2 (Z.ltb_lt i (__n v + 1))) by lia.
    rewrite (proj2 (Z.ltb_lt i (__n v))) by lia.
    destruct (elements_load v els i Hels Hi) as (x & Hx & Hl).
    destruct (elements_load v1 _ i Hels1) as (y & Hy & Hl1).
    { unfold v1. cbn [__n]. lia. }
    rewrite nth_error_app1 in Hy by lia. rewrite Hx in Hy.
    inversion Hy; subst y. rewrite Hl, Hl1. reflexivity.
Qed.


(** ** The growth policy and the calls that add an item *)

Lemma store_defined :
  forall (b : buffer T) n item,
    0 <= n < blen b ->
    store (Some b) n item = ret (Some (update b (Z.to_nat n) (Some item))).
Proof.
  intros b n item Hn. unfold store.
  rewrite (proj2 (Z.leb_le 0 n)) by lia.
  rewrite (proj2 (Z.ltb_lt n _)) by lia. reflexivity.
Qed.

(** The state after a [cvec_push_back] into a full vector whose [realloc]
    succeeds. *)
Lemma push_back_full_state :
  forall v item,
    fields_ok v -> __n v = __m v ->
    __t v * (grow_target (__m v) + 1) <= SIZE_MAX ->
    let m' := grow_target (__m v) + 1 in
    let b' := update (resize (__data v) (Z.to_nat m')) (Z.to_nat (__n v))
                (Some item) in
    cvec_push_back true v item
    = Ret (mkvec (__n v + 1) m' (__t v) (Some b') (__on_free v) (__e v)
             (__sentinel v))
          [Realloc (__t v * m') true] /\
    blen b' = m' /\ __n v + 1 <= m' <= SIZE_MAX.
Proof.
  intros v item (Hn & Hm & Ht) E Hno. cbv zeta.
  pose proof SIZE_MAX_eq as Hmax.
  assert (Hg : 2 * __m v <= grow_target (__m v) /\ 2 <= grow_target (__m v)).
  { unfold grow_target.
    destruct (__m v =? 0) eqn:Ez; [apply Z.eqb_eq in Ez|]; lia. }
  set (m' := grow_target (__m v) + 1).
  assert (Hm' : __n v + 1 <= m' /\ m' <= SIZE_MAX) by (unfold m'; nia).
  set (rb := resize (__data v) (Z.to_nat m')).
  assert (Hrl : blen rb = m').
  { unfold blen, rb. rewrite resize_length. lia. }
  split; [|split; [|lia]].
  - unfold cvec_push_back. rewrite maybe_grow_unfold.
    rewrite (proj2 (Z.eqb_eq _ _) E). cbv zeta.
    rewrite grown_cap_no_overflow by nia. fold m'.
    rewrite (wrap_small (__t v * m')) by nia.
    rewrite (Z.mul_comm (__t v) m'), Z.div_mul by lia. fold rb.
    unfold bind at 1. cbn [fst snd __data __n].
    rewrite (store_defined rb (__n v) item) by lia.
    unfold bind, ret, set_n, set_data.
    cbn [__n __m __t __data __on_free __e __sentinel app].
    rewrite wrap_small by lia. rewrite (Z.mul_comm m'). reflexivity.
  - unfold blen. rewrite update_length. exact Hrl.
Qed.

Lemma push_front_insert_eq :
  forall ra v item,
    fields_ok v -> cvec_push_front ra v item = cvec_insert ra v 0 item.
Proof.
  intros ra v item (Hn & Hm & Ht).
  unfold cvec_push_front, cvec_insert. change (wrap 0) with 0. cbv zeta.
  apply bind_ext. intros [g brk] l Hc.
  assert (En : __n g = __n v).
  { rewrite maybe_grow_unfold in Hc.
    destruct (__n v =? __m v); [destruct ra|]; cbv zeta in Hc;
      inversion Hc; reflexivity. }
  cbn [fst snd]. destruct brk; [reflexivity|].
  rewrite Z.sub_0_r. rewrite (wrap_small (__n g)) by lia.
  change (wrap (0 + 1)) with 1. reflexivity.
Qed.

Lemma insert_at_end_eq :
  forall ra v item,
    fields_ok v -> cvec_insert ra v (__n v) item = cvec_push_back ra v item.
Proof.
  intros ra v item (Hn & Hm & Ht).
  unfold cvec_insert, cvec_push_back. cbv zeta.
  rewrite (wrap_small (__n v)) by exact Hn.
  apply bind_ext. intros [g brk] l Hc.
  assert (Eg : __n g = __n v /\ __t g = __t v).
  { rewrite maybe_grow_unfold in Hc.
    destruct (__n v =? __m v); [destruct ra|]; cbv zeta in Hc;
      inversion Hc; split; reflexivity. }
  destruct Eg as [En Et].
  cbn [fst snd]. destruct brk; [reflexivity|].
  rewrite <- En. apply insert_tail_at_end; lia.
Qed.

(** C8. The growth policy.  [__cvec_maybe_grow], which every element-adding
    macro runs first, reallocates a full vector (length = capacity) to a
    block of exactly target + 1 slots, the target being 2 for capacity 0 and
    twice the capacity otherwise (the byte count of the request being a
    [size_t]), and does not touch a vector whose length is not its capacity,
    for which [realloc] is not called.  Accordingly [cvec_push_back] into a
    full vector returns, after the one successful [realloc], with capacity
    target + 1, a block of that many slots and the item appended; into a
    vector with a block and a free slot it returns without any [realloc],
    with the capacity it had and the item appended.  [cvec_insert] at the
    end, and [cvec_push_front] on an empty vector, are that same
    computation; and whenever [cvec_insert], [cvec_push_front] or
    [cvec_push_back] returns, its capacity and its [realloc] log are those
    of the growth step. *)
Theorem growth_policy :
  forall v,
    0 <= __m v -> 1 <= __t v ->
    (__n v = __m v ->
     __t v * (grow_target (__m v) + 1) <= SIZE_MAX ->
     exists buf,
       blen buf = grow_target (__m v) + 1 /\
       __cvec_maybe_grow true v =
         Ret (mkvec (__n v) (grow_target (__m v) + 1) (__t v) (Some buf)
                (__on_free v) (__e v) (__sentinel v), false)
             [Realloc (__t v * (grow_target (__m v) + 1)) true]) /\
    (__n v <> __m v ->
     forall ra, __cvec_maybe_grow ra v = Ret (v, false) []) /\
    (forall fuel ra (o : op T) v' l,
       adds o = true ->
       run fuel ra o v = Ret v' l ->
       exists g brk,
         __cvec_maybe_grow ra v = Ret (g, brk) l /\ __m v' = __m g) /\
    (fields_ok v -> __n v = __m v ->
     __t v * (grow_target (__m v) + 1) <= SIZE_MAX ->
     forall item,
     exists b',
       cvec_push_back true v item
       = Ret (mkvec (__n v + 1) (grow_target (__m v) + 1) (__t v) (Some b')
                (__on_free v) (__e v) (__sentinel v))
             [Realloc (__t v * (grow_target (__m v) + 1)) true] /\
       blen b' = grow_target (__m v) + 1 /\
       forall els,
         elements v = Some els ->
         elements (mkvec (__n v + 1) (grow_target (__m v) + 1) (__t v)
                     (Some b') (__on_free v) (__e v) (__sentinel v))
         = Some (els ++ [item])) /\
    (fields_ok v -> block_ok v -> __n v < __m v ->
     forall ra item,
     exists b',
       cvec_push_back ra v item
       = Ret (mkvec (__n v + 1) (__m v) (__t v) (Some b') (__on_free v)
                (__e v) (__sentinel v)) [] /\
       blen b' = __m v /\
       forall els,
         elements v = Some els ->
         elements (mkvec (__n v + 1) (__m v) (__t v) (Some b')
                     (__on_free v) (__e v) (__sentinel v))
         = Some (els ++ [item])) /\
    (fields_ok v ->
     forall ra item,
       cvec_insert ra v (__n v) item = cvec_push_back ra v item /\
       (__n v = 0 ->
        cvec_push_front ra v item = cvec_push_back ra v item)).
Proof.
  intros v Hm Ht.
  pose proof SIZE_MAX_eq as Hmax.
  assert (Hg : 2 * __m v <= grow_target (__m v) /\ 2 <= grow_target (__m v)).
  { unfold grow_target.
    destruct (__m v =? 0) eqn:E; [apply Z.eqb_eq in E|]; lia. }
  split; [|split; [|split; [|split; [|split]]]].
  - intros Hfull Hno.
    rewrite maybe_grow_unfold.
    rewrite (proj2 (Z.eqb_eq _ _) Hfull). cbv zeta.
    rewrite grown_cap_no_overflow by nia.
    rewrite wrap_small by nia.
    eexists. split; [|reflexivity].
    unfold blen. rewrite resize_length.
    rewrite Z.mul_comm, Z.div_mul by lia. lia.
  - intros Hne ra. rewrite maybe_grow_unfold.
    rewrite (proj2 (Z.eqb_neq _ _) Hne). reflexivity.
  - intros fuel ra o v' l Ha H.
    destruct (adds_fields fuel ra o v v' l Ha H) as (g & brk & E & Em & _).
    exists g, brk. auto.
  - intros Hf Hfull Hno item.
    destruct (push_back_full_state v item Hf Hfull Hno) as (Hp & Hb & Hb2).
    eexists. split; [exact Hp|]. split; [exact Hb|].
    intros els Hels. destruct Hf as (Hn & _).
    apply elements_of_block.
    + rewrite Hb. lia.
    + apply store_appends.
      * unfold blen. rewrite resize_length. lia.
      * apply elements_resize; [exact Hels|lia].
  - intros Hf Hblk Hlt ra item.
    unfold block_ok in Hblk.
    destruct (__data v) as [b|] eqn:Ed; [|destruct Hf as (Hn & _); lia].
    exists (update b (Z.to_nat (__n v)) (Some item)).
    destruct Hf as (Hn & Hmm & Htt).
    split; [|split].
    + unfold cvec_push_back. rewrite maybe_grow_unfold.
      rewrite (proj2 (Z.eqb_neq _ _)) by lia.
      unfold bind at 1. cbn [fst snd]. rewrite Ed.
      rewrite (store_defined b (__n v) item) by lia.
      unfold bind, ret, set_n, set_data.
      cbn [__n __m __t __data __on_free __e __sentinel app].
      rewrite wrap_small by lia. reflexivity.
    + unfold blen. rewrite update_length. exact Hblk.
    + intros els Hels.
      destruct (elements_prefix v els Hels) as [Hnb Hv].
      rewrite Ed in Hv, Hnb.
      apply elements_of_block.
      * unfold blen. rewrite update_length. fold (blen b). lia.
      * apply store_appends; [lia|exact Hv].
  - intros Hf ra item. split.
    + apply insert_at_end_eq. exact Hf.
    + intros Hz. rewrite (push_front_insert_eq ra v item Hf).
      rewrite <- Hz. apply insert_at_end_eq. exact Hf.
Qed.

(** ** Shifting at the front *)

(** A [memcpy] of [k] whole items between disjoint ranges of a block. *)
Lemma memcpy_disjoint :
  forall (buf : buffer T) t dst src k,
    1 <= t -> 0 <= k ->
    0 <= dst -> dst + k <= blen buf ->
    0 <= src -> src + k <= blen buf ->
    k = 0 \/ dst + k <= src \/ src + k <= dst ->
    memcpy (Some buf) t dst src (t * k)
    = ret (Some (blit T buf dst (slice T buf src k))).
Proof.
  intros buf t dst src k Ht Hk Hd Hdk Hs Hsk Hdis. unfold memcpy.
  rewrite (Z.mul_comm t k), Z.div_mul, Z.mod_mul by lia.
  replace ((0 <? t) && (0 =? 0) && (0 <=? dst) && (dst + k <=? blen buf)
           && (0 <=? src) && (src + k <=? blen buf)
           && ((k =? 0) || (dst + k <=? src) || (src + k <=? dst)))
    with true; [reflexivity|].
  symmetry. repeat (apply andb_true_intro; split);
    try (apply Z.leb_le; lia); try (apply Z.ltb_lt; lia); try reflexivity.
  destruct Hdis as [H|[H|H]].
  - rewrite (proj2 (Z.eqb_eq _ _) H). reflexivity.
  - rewrite (proj2 (Z.leb_le _ _) H). rewrite orb_true_r. reflexivity.
  - rewrite (proj2 (Z.leb_le _ _) H). apply orb_true_r.
Qed.

(** X9. [cvec_pop_front] on a vector of three or more items asks [memcpy]
    to move [__n - 1] items one slot down: source and destination overlap,
    so the call is undefined. *)
Theorem pop_front_overlap_undefined :
  forall v,
    fields_ok v -> __t v * __n v <= SIZE_MAX -> 3 <= __n v ->
    cvec_pop_front v = Undef.
Proof.
  intros v (Hn & Hm & Ht) Hb H3.
  pose proof SIZE_MAX_eq as Hmax.
  unfold cvec_pop_front. rewrite (proj2 (Z.gtb_lt _ _)) by lia.
  rewrite (wrap_small (__n v - 1)) by lia. rewrite wrap_small by nia.
  assert (Hc : forall d, memcpy d (__t v) 0 1 (__t v * (__n v - 1)) = Undef).
  { intros [buf|]; [|reflexivity]. unfold memcpy.
    rewrite Z.mul_comm, Z.div_mul by lia.
    replace ((__n v - 1 =? 0) || (0 + (__n v - 1) <=? 1)
             || (1 + (__n v - 1) <=? 0)) with false.
    - rewrite andb_false_r. reflexivity.
    - symmetry. repeat (apply orb_false_intro);
        [apply Z.eqb_neq|apply Z.leb_gt|apply Z.leb_gt]; lia. }
  unfold bind. rewrite Hc.
  destruct (__on_free v); [|reflexivity].
  unfold cvec_front. rewrite (proj2 (Z.gtb_lt _ _)) by lia.
  destruct (load_cases (__data v) 0) as [[a ->]| ->]; reflexivity.
Qed.

(** X10. [cvec_pop_front] on a vector of one or two items removes the first
    one: the destructor, if set, is called once, on that item, and the rest
    is the new sequence. *)
Theorem pop_front_short :
  forall v x rest,
    fields_ok v -> elements v = Some (x :: rest) -> __n v <= 2 ->
    exists v',
      cvec_pop_front v = Ret v' (if __on_free v then [Destroy x] else []) /\
      elements v' = Some rest /\
      __n v' = __n v - 1 /\ __m v' = __m v.
Proof.
  intros v x rest (Hn & Hm & Ht) Hels H2.
  pose proof SIZE_MAX_eq as Hmax.
  pose proof (elements_length v _ Hels) as Hlen. cbn [length] in Hlen.
  destruct (elements_load v _ 0 Hels) as (x0 & Hx0 & Hl0); [lia|].
  cbn in Hx0. inversion Hx0; subst x0.
  destruct (elements_prefix v _ Hels) as [Hnb Hv].
  destruct (__data v) as [b|] eqn:Ed; [|cbn in Hnb; lia].
  assert (Hfront : (if __on_free v
                    then a <- cvec_front v ;; emit (Destroy a)
                    else ret tt)
                   = Ret tt (if __on_free v then [Destroy x] else [])).
  { destruct (__on_free v); [|reflexivity].
    unfold cvec_front. rewrite (proj2 (Z.gtb_lt _ _)) by lia.
    rewrite Ed, Hl0. reflexivity. }
  unfold cvec_pop_front. rewrite (proj2 (Z.gtb_lt _ _)) by lia.
  rewrite Hfront, Ed. rewrite (wrap_small (__n v - 1)) by lia.
  destruct rest as [|y rest].
  - (* one item *)
    assert (E1 : __n v = 1) by (cbn [length] in Hlen; lia). rewrite E1 in *.
    change (1 - 1) with 0. rewrite Z.mul_0_r. change (wrap 0) with 0.
    rewrite memcpy_nothing by lia.
    replace ((0 <=? 0) && (0 <=? blen b) && (0 <=? 1) && (1 <=? blen b))
      with true
      by (symmetry; repeat (apply andb_true_intro; split);
          apply Z.leb_le; lia).
    eexists. split; [unfold bind, ret; rewrite !app_nil_r; reflexivity|].
    split; [|split; reflexivity].
    unfold elements, set_n, set_data. cbn [__data __n].
    rewrite (proj2 (Z.leb_le 0 (blen b))) by lia. reflexivity.
  - (* two items *)
    destruct rest as [|z rest]; [|cbn [length] in Hlen; lia].
    assert (E2 : __n v = 2) by (cbn [length] in Hlen; lia). rewrite E2 in *.
    change (2 - 1) with 1. rewrite wrap_small by lia.
    destruct b as [|s0 [|s1 r]]; try (cbn in Hnb; lia).
    change (Z.to_nat 2) with 2%nat in Hv. cbn [firstn values] in Hv.
    destruct s0 as [x'|]; [|discriminate].
    destruct s1 as [y'|]; [|discriminate].
    inversion Hv; subst x' y'.
    rewrite memcpy_disjoint; try lia.
    eexists. split; [unfold bind, ret; rewrite !app_nil_r; reflexivity|].
    split; [|split; reflexivity].
    unfold elements, set_n, set_data. cbn [__data __n].
    replace ((0 <=? 1) && (1 <=? blen _)) with true; [reflexivity|].
    symmetry. apply andb_true_intro. split; apply Z.leb_le; [lia|].
    unfold blen, blit, slice. change (Z.to_nat 0) with 0%nat.
    change (Z.to_nat 1) with 1%nat. cbn [firstn skipn app length Nat.add].
    lia.
Qed.

(** X11. [cvec_push_front] is the same computation as [cvec_insert] at
    position 0: the same growth step, the same [memcpy], the same store. *)
Theorem push_front_is_insert_at_front :
  forall ra v item,
    fields_ok v ->
    cvec_push_front ra v item = cvec_insert ra v 0 item.
Proof.
  intros ra v item (Hn & Hm & Ht).
  unfold cvec_push_front, cvec_insert. change (wrap 0) with 0. cbv zeta.
  apply bind_ext. intros [g brk] l Hc.
  assert (En : __n g = __n v).
  { rewrite maybe_grow_unfold in Hc.
    destruct (__n v =? __m v); [destruct ra|]; cbv zeta in Hc;
      inversion Hc; reflexivity. }
  cbn [fst snd]. destruct brk; [reflexivity|].
  rewrite Z.sub_0_r. rewrite (wrap_small (__n g)) by lia.
  change (wrap (0 + 1)) with 1. reflexivity.
Qed.

(** ** Clearing *)

(** X12. [cvec_clear] returns, with length 0 and everything else as it was,
    exactly when it has no loop to run: no destructor, or no item.  With a
    destructor and a first item [x] it exhausts every budget, and all it does
    is call the destructor on [x] over and over. *)
Theorem clear_returns_or_loops :
  forall v i,
    ((__on_free v = false \/ __n v <= 0) ->
     forall fuel, cvec_clear (S fuel) v i = ret (set_n T v 0, i)) /\
    (forall x rest,
       __on_free v = true -> elements v = Some (x :: rest) ->
       forall fuel, cvec_clear fuel v i = OutOfFuel (repeat (Destroy x) fuel)).
Proof.
  intros v i. split.
  - intros H fuel. unfold cvec_clear.
    destruct (__on_free v) eqn:Ef.
    + destruct H as [H|H]; [discriminate|].
      cbn [clear_loop]. rewrite (proj2 (Z.ltb_ge _ _)) by lia.
      rewrite bind_ret_l. reflexivity.
    + rewrite bind_ret_l. reflexivity.
  - intros x rest Ef Hels fuel.
    pose proof (elements_length v _ Hels) as Hlen. cbn [length] in Hlen.
    destruct (elements_load v _ 0 Hels) as (x0 & Hx0 & Hl0); [lia|].
    cbn in Hx0. inversion Hx0; subst x0.
    unfold cvec_clear. rewrite Ef.
    rewrite (clear_loop_stuck fuel v i x); [reflexivity|lia|exact Hl0].
Qed.

(** ** The clamp of [cvec_erase_n] *)

Lemma count_loop_value :
  forall fuel t x c n,
    0 <= t -> 0 <= x -> n <= SIZE_MAX -> c <= SIZE_MAX ->
    c - t <= Z.of_nat fuel ->
    count_loop fuel t x c n = t + Z.min (Z.max 0 (c - t)) (Z.max 0 (n - x)).
Proof.
  induction fuel as [|fuel IH]; intros t x c n Ht Hx Hn Hc Hf;
    cbn [count_loop].
  - lia.
  - destruct ((t <? c) && (x <? n)) eqn:E.
    + apply andb_prop in E. destruct E as [E1 E2].
      apply Z.ltb_lt in E1. apply Z.ltb_lt in E2.
      rewrite (wrap_small (t + 1)) by lia.
      rewrite (wrap_small (x + 1)) by lia.
      rewrite IH by lia. lia.
    + apply andb_false_iff in E. destruct E as [E|E];
        apply Z.ltb_ge in E; lia.
Qed.

(** X13. The counting loop of [cvec_erase_n] clamps the request: started at
    position [p] with count [c] on a vector of length [n] it ends with
    [__t] equal to the smaller of [c] and [n - p], and to 0 when [p] is at or
    past the length. *)
Theorem erase_n_clamps_count :
  forall p c n,
    0 <= p -> 0 <= c <= SIZE_MAX -> n <= SIZE_MAX ->
    count_loop (Z.to_nat c) 0 p c n = Z.min c (Z.max 0 (n - p)).
Proof.
  intros p c n Hp Hc Hn.
  rewrite count_loop_value by lia. lia.
Qed.


(** ** After a failed growth *)

(** X14. A [cvec_push_back] whose growth fails returns with a null block and
    a capacity other than the length.  From then on every [cvec_push_back]
    is undefined (it stores through the null pointer without growing), and
    [cvec_free] calls no destructor, whatever items the vector held. *)
Theorem failed_growth_leaves_null_block :
  forall v item,
    0 <= __m v -> __n v = __m v -> 2 * __m v + 1 <= SIZE_MAX ->
    exists v1 bytes,
      cvec_push_back false v item = Ret v1 [Realloc bytes false] /\
      __data v1 = None /\ __n v1 = __n v /\ __n v1 < __m v1 /\
      (forall ra y, cvec_push_back ra v1 y = Undef) /\
      cvec_free v1
      = Ret (cvec_init (__t v) (__sentinel v) (__on_free v)) [Free].
Proof.
  intros v item Hm Hfull Hno.
  assert (Hg : 2 * __m v <= grow_target (__m v) /\ 2 <= grow_target (__m v)).
  { unfold grow_target.
    destruct (__m v =? 0) eqn:Ez; [apply Z.eqb_eq in Ez|]; lia. }
  unfold cvec_push_back at 1. rewrite maybe_grow_unfold.
  rewrite (proj2 (Z.eqb_eq _ _) Hfull). cbv zeta.
  rewrite grown_cap_no_overflow by lia.
  unfold bind, ret. cbn [fst snd app].
  eexists. eexists. split; [reflexivity|].
  cbn [__data __n __m].
  split; [reflexivity|]. split; [reflexivity|]. split; [lia|]. split.
  - intros ra y. unfold cvec_push_back. rewrite maybe_grow_unfold.
    cbn [__n __m]. rewrite (proj2 (Z.eqb_neq _ _)) by lia. reflexivity.
  - unfold cvec_free. cbn [__data __on_free is_null negb].
    rewrite andb_false_r. reflexivity.
Qed.

(** ** Error code and error text *)

Lemma run_error_cases :
  forall fuel ra (o : op T) v v' l,
    run fuel ra o v = Ret v' l ->
    __e v' = __e v \/ __e v' = CVEC_EOK \/ __e v' = CVEC_EOOM.
Proof.
  intros fuel ra o v v' l H.
  destruct (adds o) eqn:Ea.
  { destruct (adds_fields fuel ra o v v' l Ea H)
      as (g & brk & E & _ & Ee & _).
    rewrite maybe_grow_unfold in E.
    destruct (__n v =? __m v); [destruct ra|];
      inversion E; subst g brk l; cbn [__e] in Ee; auto. }
  destruct (removes o) eqn:Er.
  { destruct (removes_fields fuel ra o v v' l Er H) as (_ & _ & Ee & _).
    auto. }
  destruct o; cbn [adds removes] in Ea, Er; try discriminate;
    cbn [run] in H.
  - apply ret_inv in H. destruct H as [-> _]. auto.
  - apply ret_inv in H. destruct H as [-> _]. auto.
  - apply free_fields in H. tauto.
  - rewrite reserve_unfold in H. inversion H; subst.
    destruct ra; cbn [__e]; auto.
  - rewrite shrink_to_fit_unfold in H.
    destruct (__m v >? __n v); inversion H; subst; [destruct ra|];
      cbn [__e]; auto.
Qed.

(** X15. The error field only ever holds [CVEC_EOK] or [CVEC_EOOM]: every
    call that returns keeps it in that set, and there [cvec_had_error] is
    true exactly when [cvec_strerror] is the out-of-memory text and false
    exactly when it is the no-error text. *)
Theorem error_code_and_text_agree :
  forall fuel ra (o : op T) v v' l,
    __e v = CVEC_EOK \/ __e v = CVEC_EOOM ->
    run fuel ra o v = Ret v' l ->
    (__e v' = CVEC_EOK \/ __e v' = CVEC_EOOM) /\
    (cvec_had_error v' = true <->
     cvec_strerror v' = ErrorText.out_of_memory) /\
    (cvec_had_error v' = false <-> cvec_strerror v' = ErrorText.no_error).
Proof.
  intros fuel ra o v v' l He H.
  assert (He' : __e v' = CVEC_EOK \/ __e v' = CVEC_EOOM).
  { destruct (run_error_cases fuel ra o v v' l H) as [E|[E|E]];
      [rewrite E; exact He|auto|auto]. }
  split; [exact He'|].
  unfold cvec_had_error, cvec_strerror.
  destruct He' as [E|E]; rewrite E; cbn; split; split; intros Hx;
    try reflexivity; discriminate.
Qed.

(** ** Traversal *)

Lemma foreach_from_loads :
  forall {U} (els : list T) d x (f : T -> U -> M T U) u,
    (forall j a, nth_error els j = Some a ->
                 load d (x + Z.of_nat j) = ret a) ->
    foreach_from d x (length els) f u = visit_all f els u.
Proof.
  intros U. induction els as [|a els IH]; intros d x f u H;
    cbn [length foreach_from visit_all].
  - reflexivity.
  - pose proof (H 0%nat a eq_refl) as H0. cbn in H0.
    rewrite Z.add_0_r in H0. rewrite H0, bind_ret_l.
    apply bind_ext. intros u' l _. apply IH.
    intros j b Hj. replace (x + 1 + Z.of_nat j) with (x + Z.of_nat (S j))
      by lia. apply H. exact Hj.
Qed.

(** X16. [cvec_foreach] calls the visitor on the live items and on nothing
    else, once each, from the first to the last, handing the state it gets
    from one call to the next; on an empty vector it calls nothing. *)
Theorem foreach_visits_in_order :
  forall {U} v els (f : T -> U -> M T U) u,
    elements v = Some els ->
    cvec_foreach v f u = visit_all f els u.
Proof.
  intros U v els f u Hels.
  pose proof (elements_length v els Hels) as Hlen.
  unfold cvec_foreach.
  replace (Z.to_nat (__n v)) with (length els) by lia.
  apply foreach_from_loads. intros j a Hj.
  eapply elements_loads; eauto.
Qed.

(** ** Whole runs *)

Lemma exec_app_Ret :
  forall fuel (c1 c2 : list (bool * op T)) v v1 l1,
    exec fuel c1 v = Ret v1 l1 ->
    exec fuel (c1 ++ c2) v = bind (Ret v1 l1) (exec fuel c2).
Proof.
  intros fuel. induction c1 as [|[ra o] c1 IH]; intros c2 v v1 l1 H.
  - cbn [exec] in H. apply ret_inv in H. destruct H as [-> ->].
    cbn [app]. symmetry. apply (bind_ret_l v (exec fuel c2)).
  - cbn [exec app] in *. unbind H.
    rewrite Ha. unfold bind at 1. rewrite (IH c2 a v1 l0 Hb).
    unfold bind. destruct (exec fuel c2 v1); try reflexivity;
      rewrite app_assoc; reflexivity.
Qed.

(** X17. The calls of example2.c on a fresh vector (reserve one slot per
    item, push every item, tear down) return when the one [realloc]
    succeeds: the pushes never reallocate, the destructor, if set, runs
    once on every item, in the order pushed, before the block is freed, and
    the structure ends as it started. *)
Theorem build_and_teardown_log :
  forall (xs : list T) fuel sz s f,
    1 <= sz <= SIZE_MAX -> sz * Z.of_nat (length xs) <= SIZE_MAX ->
    exec fuel (build_and_teardown xs) (cvec_init sz s f)
    = Ret (cvec_init sz s f)
          (Realloc (sz * Z.of_nat (length xs)) true
           :: (if f then map Destroy xs else []) ++ [Free]).
Proof.
  intros xs fuel sz s f Hsz Hb.
  pose proof SIZE_MAX_eq as Hmax.
  set (k := Z.of_nat (length xs)) in *.
  assert (Hk : 0 <= k <= SIZE_MAX) by (unfold k; nia).
  unfold build_and_teardown. fold k. cbn [exec run].
  rewrite reserve_unfold. cbn [cvec_init __n __m __t __data __on_free __e
                                 __sentinel].
  rewrite (wrap_small k) by exact Hk. rewrite wrap_small by nia.
  rewrite (Z.mul_comm sz k), Z.div_mul by lia.
  set (v1 := mkvec 0 k sz (Some (resize None (Z.to_nat k))) f CVEC_EOK s).
  assert (Hf1 : fields_ok v1) by (unfold fields_ok, v1; cbn [__n __m __t]; lia).
  assert (Hb1 : block_ok v1).
  { unfold block_ok, v1. cbn [__data __m]. unfold blen.
    rewrite resize_length. lia. }
  assert (He1 : elements v1 = Some []).
  { apply elements_of_block; [|reflexivity]. unfold blen.
    rewrite resize_length. lia. }
  destruct (exec_pushes_state xs fuel true v1 [] Hf1 Hb1 He1)
    as (v2 & Hp & He2 & Hn2 & Hm2 & Ht2 & Hof2 & Hee2 & Hs2 & _).
  { unfold v1. cbn [__n __m]. fold k. lia. }
  cbn [app] in He2.
  unfold bind at 1.
  rewrite (exec_app_Ret fuel (pushes true xs) [(true, FreeVec)] v1 v2 []
             Hp).
  unfold bind. cbn [exec run]. unfold bind.
  rewrite (free_state v2 xs He2).
  rewrite Ht2, Hs2, Hof2. unfold v1. cbn [__t __sentinel __on_free].
  unfold ret. cbn [app]. rewrite !app_nil_r. reflexivity.
Qed.


(** ** Inserting before the last item *)

Lemma values_map :
  forall (b : buffer T) els, values b = Some els -> b = map Some els.
Proof.
  induction b as [|s b IH]; intros els H; cbn [values] in H.
  - inversion H. reflexivity.
  - destruct s as [x|]; [|discriminate].
    destruct (values b) as [r|] eqn:E; [|discriminate].
    inversion H; subst els. cbn [map]. rewrite (IH r eq_refl). reflexivity.
Qed.

Lemma values_of_map :
  forall els : list T, values (map Some els) = Some els.
Proof.
  induction els as [|x els IH]; cbn [map values]; [reflexivity|].
  rewrite IH. reflexivity.
Qed.

Lemma firstn_past :
  forall (pre r : buffer T) j,
    firstn (length pre + j) (pre ++ r) = pre ++ firstn j r.
Proof.
  induction pre as [|a pre IH]; intros r j; cbn [length Nat.add app firstn].
  - reflexivity.
  - rewrite IH. reflexivity.
Qed.

Lemma skipn_past :
  forall (pre r : buffer T) j,
    skipn (length pre + j) (pre ++ r) = skipn j r.
Proof.
  induction pre as [|a pre IH]; intros r j; cbn [length Nat.add app skipn].
  - reflexivity.
  - apply IH.
Qed.

Lemma update_past :
  forall (pre r : buffer T) j s,
    update (pre ++ r) (length pre + j) s = pre ++ update r j s.
Proof.
  induction pre as [|a pre IH]; intros r j s; cbn [length Nat.add app update].
  - reflexivity.
  - rewrite IH. reflexivity.
Qed.

(** X18. [cvec_insert] just before the last item of a well-formed vector
    with a free slot moves that one item up (the ranges of the [memcpy] are
    disjoint) and puts the new item in its place; [realloc] is not called. *)
Theorem insert_before_last_shifts :
  forall ra v item els y,
    fields_ok v -> block_ok v -> __n v < __m v ->
    elements v = Some (els ++ [y]) ->
    exists v',
      cvec_insert ra v (__n v - 1) item = Ret v' [] /\
      elements v' = Some (els ++ [item; y]) /\
      __n v' = __n v + 1 /\ __m v' = __m v.
Proof.
  intros ra v item els y (Hn & Hm & Ht) Hblk Hlt Hels.
  pose proof SIZE_MAX_eq as Hmax.
  pose proof (elements_length v _ Hels) as Hlen.
  rewrite length_app in Hlen. cbn [length] in Hlen.
  destruct (elements_prefix v _ Hels) as [Hnb Hv].
  unfold block_ok in Hblk.
  destruct (__data v) as [b|] eqn:Ed; [|lia].
  apply values_map in Hv. rewrite map_app in Hv. cbn [map] in Hv.
  set (pre := map Some els) in *.
  assert (Hpre : length pre = length els) by (unfold pre; apply length_map).
  assert (Hb : b = pre ++ Some y :: skipn (Z.to_nat (__n v)) b).
  { rewrite <- (firstn_skipn (Z.to_nat (__n v)) b) at 1.
    rewrite Hv, <- app_assoc. reflexivity. }
  destruct (skipn (Z.to_nat (__n v)) b) as [|s post] eqn:Epost.
  { apply (f_equal (@length _)) in Epost. rewrite length_skipn in Epost.
    unfold blen in Hblk. cbn [length] in Epost. lia. }
  clear Epost Hv. subst b.
  assert (Hbl : blen (pre ++ Some y :: s :: post) = __m v) by exact Hblk.
  unfold blen in Hbl. rewrite length_app in Hbl. cbn [length] in Hbl.
  set (b1 := pre ++ Some y :: Some y :: post).
  set (b2 := pre ++ Some item :: Some y :: post).
  assert (Hmc : memcpy (__data v) (__t v) (__n v)
                  (__n v - 1) (__t v * 1) = ret (Some b1)).
  { rewrite Ed.
    rewrite memcpy_disjoint; unfold blen; rewrite ?length_app; cbn [length];
      try lia.
    unfold slice, blit, b1.
    replace (Z.to_nat (__n v - 1)) with (length pre + 0)%nat by lia.
    rewrite skipn_past. change (Z.to_nat 1) with 1%nat.
    cbn [skipn firstn length].
    replace (Z.to_nat (__n v)) with (length pre + 1)%nat by lia.
    rewrite firstn_past.
    replace (length pre + 1 + 1)%nat with (length pre + 2)%nat by lia.
    rewrite skipn_past. cbn [firstn skipn].
    rewrite <- app_assoc. reflexivity. }
  assert (Hst : store (Some b1) (__n v - 1) item = ret (Some b2)).
  { unfold store, blen, b1, b2. rewrite length_app. cbn [length].
    match goal with
    | |- (if ?c then _ else _) = _ =>
        replace c with true
          by (symmetry; apply andb_true_intro; split;
              [apply Z.leb_le|apply Z.ltb_lt]; lia)
    end.
    replace (Z.to_nat (__n v - 1)) with (length pre + 0)%nat by lia.
    rewrite update_past. reflexivity. }
  unfold cvec_insert. rewrite maybe_grow_unfold.
  rewrite (proj2 (Z.eqb_neq _ _)) by lia.
  unfold bind at 1. cbn [fst snd].
  rewrite (wrap_small (__n v - 1)) by lia.
  replace (__n v - 1 + 1) with (__n v) by lia.
  rewrite (wrap_small (__n v)) by lia.
  replace (__n v - (__n v - 1)) with 1 by lia.
  change (wrap 1) with 1. rewrite (wrap_small (__t v * 1)) by lia.
  rewrite Hmc, bind_ret_l.
  unfold set_n, set_data. cbn [__data __n __m __t __on_free __e __sentinel].
  rewrite Hst, bind_ret_l. rewrite (wrap_small (__n v + 1)) by lia.
  unfold ret. cbn [app].
  eexists. split; [reflexivity|].
  split; [|split; reflexivity].
  apply elements_of_block.
  - unfold blen, b2. rewrite length_app. cbn [length]. lia.
  - unfold b2. replace (Z.to_nat (__n v + 1)) with (length pre + 2)%nat by lia.
    rewrite firstn_past. cbn [firstn].
    unfold pre. change [Some item; Some y] with (map Some [item; y]).
  rewrite <- map_app. apply values_of_map.
Qed.


End MoreProperties.

(** * The callers of example1.c *)

Lemma visit_print :
  forall els i out,
    0 <= i -> i + Z.of_nat (length els) <= INT_MAX ->
    visit_all printVecItemCallback els (i, out)
    = ret (i + Z.of_nat (length els), out ++ numbered i els).
Proof.
  induction els as [|x els IH]; intros i out Hi Hb;
    cbn [visit_all length numbered].
  - rewrite Z.add_0_r, app_nil_r. reflexivity.
  - cbn [length] in Hb. rewrite Nat2Z.inj_succ in Hb.
    unfold printVecItemCallback at 1. cbn [fst snd].
    rewrite (proj2 (Z.ltb_lt i INT_MAX)) by lia.
    rewrite bind_ret_l. rewrite IH by lia.
    rewrite <- app_assoc. cbn [app]. rewrite Nat2Z.inj_succ.
    replace (i + 1 + Z.of_nat (length els))
      with (i + Z.succ (Z.of_nat (length els))) by lia.
    reflexivity.
Qed.

(** X19. [printVec] of example1.c prints one line per live item, first to
    last, each with the index of the item, counted from 0, and the item; the
    number of items is taken to fit an [int]. *)
Theorem printVec_prints_items_in_order :
  forall iv els,
    elements iv = Some els ->
    Z.of_nat (length els) <= INT_MAX ->
    printVec iv = ret (numbered 0 els).
Proof.
  intros iv els Hels Hb.
  pose proof (elements_length iv els Hels) as Hlen.
  unfold printVec, cvec_foreach.
  replace (Z.to_nat (__n iv)) with (length els) by lia.
  rewrite (foreach_from_loads els (__data iv) 0).
  - rewrite visit_print by lia. rewrite bind_ret_l. reflexivity.
  - intros j a Hj. eapply elements_loads; eauto.
Qed.

(** * Instances on vectors of integers *)

Lemma push_back_appends_witness :
  exists v' l,
    cvec_push_back true full3 40 = Ret v' l /\
    elements v' = Some ([10; 20; 30] ++ [40]) /\
    __n v' = __n full3 + 1 /\ __n v' <= __m v' /\ block_ok v'.
Proof.
  apply (push_back_appends true full3 40 [10; 20; 30]).
  - repeat split; discriminate.
  - reflexivity.
  - discriminate.
  - reflexivity.
  - intros _. split; [reflexivity|discriminate].
Defined.

Lemma push_backs_within_capacity_witness :
  exists v',
    exec 0 (pushes false [50; 60]) roomy4 = Ret v' [] /\
    elements v' = Some ([10; 20; 30; 40] ++ [50; 60]) /\
    __n v' = __n roomy4 + 2 /\
    __m v' = __m roomy4 /\ __t v' = __t roomy4 /\
    __on_free v' = __on_free roomy4 /\
    __e v' = __e roomy4 /\ __sentinel v' = __sentinel roomy4.
Proof.
  apply (push_backs_within_capacity [50; 60] 0 false roomy4 [10; 20; 30; 40]).
  - repeat split; discriminate.
  - reflexivity.
  - reflexivity.
  - discriminate.
Defined.

Lemma reserve_keeps_items_witness :
  exists v',
    cvec_reserve true full3 8 = Ret v' [Realloc (__t full3 * 8) true] /\
    elements v' = Some [10; 20; 30] /\
    __n v' = __n full3 /\ __m v' = 8 /\ __e v' = __e full3 /\ block_ok v'.
Proof.
  apply (reserve_keeps_items full3 [10; 20; 30] 8).
  - repeat split; discriminate.
  - reflexivity.
  - discriminate.
  - discriminate.
Defined.

Lemma shrink_to_fit_keeps_items_witness :
  exists v' l,
    cvec_shrink_to_fit true roomy4 = Ret v' l /\
    elements v' = Some [10; 20; 30; 40] /\
    __n v' = __n roomy4 /\ __m v' = __n roomy4 /\ __e v' = __e roomy4 /\
    (__n roomy4 < __m roomy4 ->
     l = [Realloc (__t roomy4 * __n roomy4) true] /\ block_ok v') /\
    (__n roomy4 = __m roomy4 -> l = [] /\ v' = roomy4).
Proof.
  apply (shrink_to_fit_keeps_items roomy4 [10; 20; 30; 40]).
  - repeat split; discriminate.
  - reflexivity.
  - discriminate.
  - discriminate.
Defined.

Lemma free_destroys_in_order_witness :
  exists v',
    cvec_free owned3
      = Ret v' ((if __on_free owned3
                 then map Destroy [10; 20; 30] else []) ++ [Free]) /\
    v' = cvec_init (__t owned3) (__sentinel owned3) (__on_free owned3) /\
    elements v' = Some [] /\ cvec_size v' = 0 /\ cvec_cap v' = 0 /\
    cvec_had_error v' = false.
Proof.
  apply (free_destroys_in_order owned3 [10; 20; 30]). reflexivity.
Defined.

Lemma pop_back_removes_last_witness :
  exists x v',
    nth_error [10; 20; 30] (length [10; 20; 30] - 1) = Some x /\
    cvec_pop_back owned3
      = Ret v' (if __on_free owned3 then [Destroy x] else []) /\
    elements v' = Some (removelast [10; 20; 30]) /\
    __n v' = __n owned3 - 1 /\ __m v' = __m owned3 /\
    __data v' = __data owned3.
Proof.
  apply (pop_back_removes_last owned3 [10; 20; 30]).
  - repeat split; discriminate.
  - reflexivity.
  - reflexivity.
Defined.


Lemma push_back_then_access_witness :
  exists v' l,
    cvec_push_back true full3 40 = Ret v' l /\
    cvec_size v' = cvec_size full3 + 1 /\
    cvec_back v' = ret 40 /\
    cvec_at v' (cvec_size full3) = ret 40 /\
    (forall i, 0 <= i < cvec_size full3 -> cvec_at v' i = cvec_at full3 i).
Proof.
  apply (push_back_then_access true full3 40 [10; 20; 30]).
  - repeat split; discriminate.
  - reflexivity.
  - discriminate.
  - reflexivity.
  - intros _. split; [reflexivity|discriminate].
Defined.

Lemma pop_front_overlap_undefined_witness :
  cvec_pop_front full3 = Undef.
Proof.
  apply (pop_front_overlap_undefined full3).
  - repeat split; discriminate.
  - discriminate.
  - discriminate.
Defined.

Lemma pop_front_short_witness :
  exists v',
    cvec_pop_front owned2
      = Ret v' (if __on_free owned2 then [Destroy 10] else []) /\
    elements v' = Some [20] /\
    __n v' = __n owned2 - 1 /\ __m v' = __m owned2.
Proof.
  apply (pop_front_short owned2 10 [20]).
  - repeat split; discriminate.
  - reflexivity.
  - discriminate.
Defined.

Lemma push_front_is_insert_at_front_witness :
  cvec_push_front true full3 5 = cvec_insert true full3 0 5.
Proof.
  apply (push_front_is_insert_at_front true full3 5).
  repeat split; discriminate.
Defined.

Lemma clear_returns_or_loops_witness :
  (forall fuel, cvec_clear (S fuel) full3 0 = ret (set_n Z full3 0, 0)) /\
  (forall fuel, cvec_clear fuel owned2 0 = OutOfFuel (repeat (Destroy 10) fuel)).
Proof.
  split.
  - apply (proj1 (clear_returns_or_loops full3 0)). left. reflexivity.
  - apply (proj2 (clear_returns_or_loops owned2 0) 10 [20]); reflexivity.
Defined.

Lemma erase_n_clamps_count_witness :
  count_loop (Z.to_nat 1000) 0 2 1000 5 = Z.min 1000 (Z.max 0 (5 - 2)).
Proof.
  apply (erase_n_clamps_count 2 1000 5).
  - discriminate.
  - split; discriminate.
  - discriminate.
Defined.

Lemma failed_growth_leaves_null_block_witness :
  exists v1 bytes,
    cvec_push_back false owned3 40 = Ret v1 [Realloc bytes false] /\
    __data v1 = None /\ __n v1 = __n owned3 /\ __n v1 < __m v1 /\
    (forall ra y, cvec_push_back ra v1 y = Undef) /\
    cvec_free v1
    = Ret (cvec_init (__t owned3) (__sentinel owned3) (__on_free owned3))
          [Free].
Proof.
  apply (failed_growth_leaves_null_block owned3 40).
  - discriminate.
  - reflexivity.
  - discriminate.
Defined.

Lemma error_code_and_text_agree_witness :
  exists v' l,
    run 0 true (Reserve 4) failed0 = Ret v' l /\
    (__e v' = CVEC_EOK \/ __e v' = CVEC_EOOM) /\
    (cvec_had_error v' = true <->
     cvec_strerror v' = ErrorText.out_of_memory) /\
    (cvec_had_error v' = false <-> cvec_strerror v' = ErrorText.no_error).
Proof.
  exists (mkvec 0 4 4 (Some [None; None; None; None]) false CVEC_EOOM (-1)),
    [Realloc 16 true].
  split; [reflexivity|].
  apply (error_code_and_text_agree 0 true (Reserve 4) failed0
           (mkvec 0 4 4 (Some [None; None; None; None]) false CVEC_EOOM (-1))
           [Realloc 16 true]).
  - right. reflexivity.
  - reflexivity.
Defined.

Lemma foreach_visits_in_order_witness :
  cvec_foreach roomy4 (fun a u => ret (u + a)) 0
  = visit_all (fun a u => ret (u + a)) [10; 20; 30; 40] 0.
Proof.
  apply (foreach_visits_in_order roomy4 [10; 20; 30; 40]). reflexivity.
Defined.

Lemma build_and_teardown_log_witness :
  exec 0 (build_and_teardown [10; 20; 30]) (cvec_init 8 0 true)
  = Ret (cvec_init 8 0 true)
        (Realloc (8 * Z.of_nat (length [10; 20; 30])) true
         :: (if true then map Destroy [10; 20; 30] else []) ++ [Free]).
Proof.
  apply (build_and_teardown_log [10; 20; 30] 0 8 0 true).
  - split; discriminate.
  - discriminate.
Defined.

Lemma insert_before_last_shifts_witness :
  exists v',
    cvec_insert false roomy4 (__n roomy4 - 1) 9 = Ret v' [] /\
    elements v' = Some ([10; 20; 30] ++ [9; 40]) /\
    __n v' = __n roomy4 + 1 /\ __m v' = __m roomy4.
Proof.
  apply (insert_before_last_shifts false roomy4 9 [10; 20; 30] 40).
  - repeat split; discriminate.
  - reflexivity.
  - reflexivity.
  - reflexivity.
Defined.

Lemma printVec_prints_items_in_order_witness :
  printVec roomy4 = ret (numbered 0 [10; 20; 30; 40]).
Proof.
  apply (printVec_prints_items_in_order roomy4 [10; 20; 30; 40]).
  - reflexivity.
  - discriminate.
Defined.

Lemma insert_overlap_undefined_witness :
  cvec_insert true roomy4 0 9 = Undef /\
  cvec_insert false roomy4 0 9 = Undef.
Proof.
  assert (H : forall ra, cvec_insert ra roomy4 0 9 = Undef).
  { apply (insert_overlap_undefined roomy4 0 9).
    - repeat split; discriminate.
    - discriminate.
    - reflexivity.
    - discriminate.
    - discriminate. }
  exact (conj (H true) (H false)).
Defined.

Lemma erase_in_range_undefined_witness :
  cvec_erase full3 0 = Undef.
Proof.
  apply (erase_in_range_undefined full3 0).
  - repeat split; discriminate.
  - discriminate.
  - split; [discriminate|reflexivity].
Defined.

Lemma growth_policy_witness :
  (exists buf,
     __cvec_maybe_grow true full3
     = Ret (mkvec 3 7 4 (Some buf) false CVEC_EOK (-1), false)
           [Realloc 28 true]) /\
  (forall ra, __cvec_maybe_grow ra roomy4 = Ret (roomy4, false) []) /\
  (exists b',
     cvec_push_back true full3 40
     = Ret (mkvec 4 7 4 (Some b') false CVEC_EOK (-1)) [Realloc 28 true] /\
     blen b' = 7 /\
     elements (mkvec 4 7 4 (Some b') false CVEC_EOK (-1))
     = Some [10; 20; 30; 40]) /\
  (exists b',
     cvec_push_back false roomy4 50
     = Ret (mkvec 5 7 4 (Some b') false CVEC_EOK (-1)) [] /\
     blen b' = 7 /\
     elements (mkvec 5 7 4 (Some b') false CVEC_EOK (-1))
     = Some [10; 20; 30; 40; 50]) /\
  cvec_insert true full3 (__n full3) 40 = cvec_push_back true full3 40 /\
  cvec_push_front true fresh 10 = cvec_push_back true fresh 10.
Proof.
  assert (P3 : 0 <= __m full3) by discriminate.
  assert (Q3 : 1 <= __t full3) by discriminate.
  assert (P4 : 0 <= __m roomy4) by discriminate.
  assert (Q4 : 1 <= __t roomy4) by discriminate.
  assert (P0 : 0 <= __m fresh) by discriminate.
  assert (Q0 : 1 <= __t fresh) by discriminate.
  assert (F3 : fields_ok full3) by (repeat split; discriminate).
  assert (F4 : fields_ok roomy4) by (repeat split; discriminate).
  assert (F0 : fields_ok fresh) by (repeat split; discriminate).
  destruct (growth_policy full3 P3 Q3) as (A & _ & _ & D & _ & I).
  destruct (growth_policy roomy4 P4 Q4) as (_ & B & _ & _ & E & _).
  destruct (growth_policy fresh P0 Q0) as (_ & _ & _ & _ & _ & I0).
  assert (N3 : __n full3 = __m full3) by reflexivity.
  assert (B3 : __t full3 * (grow_target (__m full3) + 1) <= SIZE_MAX)
    by discriminate.
  assert (R4 : __n roomy4 < __m roomy4) by reflexivity.
  split; [|split; [|split; [|split; [|split]]]].
  - destruct (A N3 B3) as (buf & _ & Hg). exists buf. exact Hg.
  - apply B. discriminate.
  - destruct (D F3 N3 B3 40) as (b' & Hp & Hb & He).
    exists b'. split; [exact Hp|]. split; [exact Hb|].
    exact (He [10; 20; 30] eq_refl).
  - destruct (E F4 eq_refl R4 false 50) as (b' & Hp & Hb & He).
    exists b'. split; [exact Hp|]. split; [exact Hb|].
    exact (He [10; 20; 30; 40] eq_refl).
  - exact (proj1 (I F3 true 40)).
  - exact (proj2 (I0 F0 true 10) eq_refl).
Defined.
